(** * bayes_filter: ARMA-X state-space construction and Kalman filtering loop

    A shallow embedding of [src/filter.py] ([set_up_kalman_filter] and
    [kalman_filter]) and the proofs of its specification.

    Python values are modelled as follows.
    - [int] is [Z]; [len] is a [nat] injected into [Z] where the source mixes
      it with [p], [q], [d].
    - [str] is [string]; [a in b] on strings is the substring test [contains];
      an f-string [f'ar.L{i}'] is a literal appended with stdpp's decimal
      [pretty] of the integer.
    - A [dict] is an association list in insertion order.
    - A numpy array of shape [(n, 1)] is a [list R]; one of shape [(T, n, 1)]
      or [(r, c)] is a list of such rows.  The scalar type [R] (numpy's
      float64) is abstract, with the constants and operations the source uses.
    - Exceptions are the [Raise] results of the [result] monad.
    - filterpy's [KalmanFilter] object is an interface ([KalmanFilter]): the
      source only calls [predict], [update] and reads [x], [P] and
      [log_likelihood]. *)

From Stdlib Require Import ZArith Lia Ascii.
From stdpp Require Import base list strings pretty.

(** ** Python primitives *)

Module Py.

(** [pat in s] for two strings. *)
Fixpoint contains (pat s : string) : bool :=
  String.prefix pat s ||
  match s with
  | EmptyString => false
  | String _ s' => contains pat s'
  end.

(** [range(a, b)]. *)
Definition range (a b : Z) : list Z := seqZ a (b - a).

Inductive index_error :=
| OutOfBounds      (* integer index outside axis 0 of the tensor *)
| BooleanMismatch  (* boolean index did not match the indexed axis *)
| EmptySelection   (* element 0 of an array of size 0 *)
| ListIndex.       (* list index out of range *)

Inductive exn :=
| AssertionError
| ValueError
| KeyError
| IndexError (e : index_error).

Inductive result (A : Type) :=
| Ok (a : A)
| Raise (e : exn).
Arguments Ok {A} a.
Arguments Raise {A} e.

Global Instance result_ret : MRet result := λ A a, Ok a.
Global Instance result_bind : MBind result := λ A B k m,
  match m with
  | Ok a => k a
  | Raise e => Raise e
  end.

(** [assert b]. *)
Definition assert (b : bool) : result unit :=
  if b then Ok tt else Raise AssertionError.

(** A [for] loop over [l] whose body updates the state [s] or raises. *)
Fixpoint for_each {A S} (body : A → S → result S) (l : list A) (s : S)
  : result S :=
  match l with
  | [] => Ok s
  | a :: l' => body a s ≫= for_each body l'
  end.

End Py.
Import Py.

(** The parameter names the fitting routine gives the lag coefficients. *)
Definition ar_name (i : Z) : string := "ar.L" +:+ pretty i.
Definition ma_name (i : Z) : string := "ma.L" +:+ pretty i.
Global Arguments ar_name : simpl never.
Global Arguments ma_name : simpl never.

(** ** Scalars and the filter interface *)

Class Scalar (R : Type) := {
  zero : R;
  one : R;
  add : R → R → R;
  sub : R → R → R;
  mul : R → R → R;
}.

(** The members of filterpy's [KalmanFilter] that the source uses. [x] has
    shape [(dim_x, 1)], [P] is a matrix. [predict] and [update] stand for
    calls that return: filterpy raises [ValueError] when the matrices or the
    observation do not conform, and a run stops there. What is proved of a
    run is therefore either conditional on its returning, or about the
    errors of the loop's own indexing. *)
Class KalmanFilter (R KF : Type) := {
  predict : KF → KF;
  update : KF → list R → KF;
  x : KF → list R;
  P : KF → list (list R);
  log_likelihood : KF → R;
}.

Definition matrix (R : Type) := list (list R).

(** A joined table [df]: its number of columns and the rows that survived
    [dropna()]. *)
Record frame (R : Type) := {
  columns : nat;
  values : list (list R);
}.
Arguments columns {R} _.
Arguments values {R} _.

Definition frame_wf {R} (df : frame R) : Prop :=
  Forall (λ row, length row = columns df) (values df).

(** ** numpy indexing *)

Section Numpy.
Context {R : Type}.

(** [a[0]] on axis 0 of a one-axis selection. *)
Definition getitem0 (a : list R) : result R :=
  match a with
  | [] => Raise (IndexError EmptySelection)
  | v :: _ => Ok v
  end.

(** A list of booleans indexes an axis of the same size; the empty list is an
    empty integer index and selects nothing on any axis. *)
Definition mask_fits (mask : list bool) (size : nat) : bool :=
  match mask with
  | [] => true
  | _ => bool_decide (length mask = size)
  end.

Fixpoint select (mask : list bool) (row : list R) : list R :=
  match mask, row with
  | b :: mask', v :: row' =>
      if b then v :: select mask' row' else select mask' row'
  | _, _ => []
  end.

Fixpoint assign (mask : list bool) (v : R) (row : list R) : list R :=
  match mask, row with
  | b :: mask', u :: row' => (if b then v else u) :: assign mask' v row'
  | _, _ => row
  end.

(** [row[mask]] *)
Definition mask_get (mask : list bool) (row : list R) : result (list R) :=
  if mask_fits mask (length row) then Ok (select mask row)
  else Raise (IndexError BooleanMismatch).

(** [row[mask] = v] for a scalar [v] (broadcast over the selection). *)
Definition mask_set (mask : list bool) (v : R) (row : list R)
  : result (list R) :=
  if mask_fits mask (length row) then Ok (assign mask v row)
  else Raise (IndexError BooleanMismatch).

(** Number of columns of a two-axis array with at least one row. *)
Definition ncols (M : matrix R) : nat :=
  match M with
  | [] => 0
  | r :: _ => length r
  end.

(** [np.append([A], [B], axis=1)[0]]: [B] below [A]. An empty [B] has one
    axis only and cannot be appended. *)
Definition np_append (A B : matrix R) : result (matrix R) :=
  match B with
  | [] => Raise ValueError
  | _ => if bool_decide (ncols A = ncols B) then Ok (A ++ B)
         else Raise ValueError
  end.

End Numpy.

(** ** Python dictionaries *)

Section Dict.
Context {R : Type}.

(** [d[k]] *)
Fixpoint dict_get (d : list (string * R)) (k : string) : result R :=
  match d with
  | [] => Raise KeyError
  | (k', v) :: d' => if decide (k' = k) then Ok v else dict_get d' k
  end.

(** [d[k] = v]: an existing key keeps its place, a new one goes last. *)
Fixpoint dict_set (d : list (string * R)) (k : string) (v : R)
  : list (string * R) :=
  match d with
  | [] => [(k, v)]
  | (k', v') :: d' =>
      if decide (k' = k) then (k', v) :: d' else (k', v') :: dict_set d' k v
  end.

(** [{item: d[item] for item in keys}] *)
Definition dict_comprehension (d : list (string * R)) (keys : list string)
  : result (list (string * R)) :=
  for_each (λ item acc, v ← dict_get d item; Ok (dict_set acc item v))
           keys [].

End Dict.

(** ** [set_up_kalman_filter] *)

Section SetUp.
Context {R : Type} `{!Scalar R}.

(** [1 if c else 0] *)
Definition indicator (c : bool) : R := if c then one else zero.

(** Lines 48-49 (and 124): the boolean masks over the state variables. *)
Definition ma_bool_mask (state_vars : list string) : list bool :=
  (λ item, contains "ma.L" item) <$> state_vars.
Definition ar_bool_mask (state_vars : list string) : list bool :=
  (λ item, contains "ar.L" item) <$> state_vars.

(** Lines 34-36: the three groups of parameter names. *)
Definition ar_params (param_names : list string) : list string :=
  filter (λ col, contains "ar." col) param_names.
Definition ma_parmas (param_names : list string) : list string :=
  filter (λ col, contains "ma." col) param_names.
Definition exo_params (exog param_names : list string) : list string :=
  filter (λ col, col ∈ exog) param_names.

(** Lines 54-56. *)
Definition ar_T (p : Z) (state_vars : list string) : matrix R :=
  (λ i, (λ item, indicator (bool_decide (item = ar_name i))) <$> state_vars)
    <$> range 1 p.
Definition ma_T (q : Z) (state_vars : list string) : matrix R :=
  (λ i, (λ item, indicator (bool_decide (item = ma_name i))) <$> state_vars)
    <$> range 1 (q + 1).
Definition exo_T (exo_params state_vars : list string) : matrix R :=
  (λ exo, (λ name, indicator (bool_decide (exo = name))) <$> state_vars)
    <$> exo_params.

(** Lines 58-61: the coefficient row, then the blocks that are not empty. *)
Definition transition_matrix (p q d : Z) (coefficients : list R)
    (state_vars exo_params : list string) : result (matrix R) :=
  let T := [coefficients] in
  T ← (if bool_decide (p > 1)%Z then np_append T (ar_T p state_vars)
       else Ok T);
  T ← (if bool_decide (q > 0)%Z then np_append T (ma_T q state_vars)
       else Ok T);
  if bool_decide (d > 0)%Z then np_append T (exo_T exo_params state_vars)
  else Ok T.

(** Lines 78-79: [df.values.reshape((len(df), no_params, 1))] keeps the rows
    when the sizes agree; the MA-masked entries of every row are then
    overwritten with [np.zeros((len(df), q, 1))], whose middle axis must be
    the number of selected entries or 1 to broadcast. *)
Definition observation_tensor (q no_params : Z) (df : frame R)
    (mask : list bool) : result (list (list R)) :=
  let len := Z.of_nat (length (values df)) in
  if bool_decide (len * Z.of_nat (columns df) = len * no_params * 1)%Z then
    if mask_fits mask (Z.to_nat no_params) then
      let selected := Z.of_nat (length (filter (λ b, b = true) mask)) in
      if bool_decide (q = selected ∨ q = 1)%Z
      then Ok (assign mask zero <$> values df)
      else Raise ValueError
    else Raise (IndexError BooleanMismatch)
  else Raise ValueError.

(** What [set_up_kalman_filter] returns, restricted to [T], [zs] and
    [state_vars]. [Q], [Z], [H], [x0], [P0] and the index come from the
    collaborators and from [xdim], [zdim] and the noise scalars alone. *)
Record setup := {
  su_T : matrix R;
  su_zs : list (list R);
  su_state_vars : list string;
}.

(** [df] stands for the table joined from [get_ARlags] and [data[exog]] after
    [dropna()] (lines 70-76). The embedding covers lines 25-61 and 78-79,
    given that table: the column lookups of lines 70-72 ([KeyError] on a
    missing column) are taken to have produced [df], and the estimate of [Q]
    (line 82, which refuses an empty table) and [x0], [P0] (lines 85-87)
    come after what is embedded. [Ok] means that nothing is raised by the
    embedded lines. *)
Definition set_up_kalman_filter (p q d : Z) (df : frame R)
    (arima_params : list (string * R)) (endog exog : list string)
  : result setup :=
  assert (bool_decide (length endog = 1));;
  let param_names := arima_params.*1 in
  let no_params := (p + q + d)%Z in
  let ar_params := ar_params param_names in
  let ma_parmas := ma_parmas param_names in
  let exo_params := exo_params exog param_names in
  assert (bool_decide (Z.of_nat (length ar_params) = p));;
  assert (bool_decide (Z.of_nat (length ma_parmas) = q));;
  assert (bool_decide (Z.of_nat (length exo_params) = d));;
  let state_vars := ar_params ++ ma_parmas ++ exo_params in
  arima_params ← dict_comprehension arima_params state_vars;
  T ← transition_matrix p q d (arima_params.*2) state_vars exo_params;
  zs ← observation_tensor q no_params df (ma_bool_mask state_vars);
  Ok {| su_T := T; su_zs := zs; su_state_vars := state_vars |}.

End SetUp.
Arguments setup R : clear implicits.

(** ** The other outputs of [set_up_kalman_filter], and the fit *)

Section SetUpRest.
Context {R : Type} `{!Scalar R}.

(** [[v] * n]: an empty list when [n] is not positive. *)
Definition py_repeat (v : R) (n : Z) : list R := replicate (Z.to_nat n) v.

(** [np.diag(l)] for a one-axis [l]: row [i] is zero but for [l[i]] in
    column [i]; an empty [l] gives the array of shape [(0, 0)]. *)
Definition np_diag (l : list R) : matrix R :=
  imap (λ i v, <[i := v]> (replicate (length l) zero)) l.

(** Line 64: [H = np.diag([measurement_noise] * zdim)]. *)
Definition H_matrix (measurement_noise : R) (zdim : Z) : matrix R :=
  np_diag (py_repeat measurement_noise zdim).

(** Line 67: [Z = np.diag([1] * zdim)]. *)
Definition Z_matrix (zdim : Z) : matrix R := np_diag (py_repeat one zdim).

(** Lines 85-86: [np.zeros([xdim]) + x0], reshaped to [(xdim, 1)].
    [np.zeros] refuses a negative dimension. *)
Definition x0_vector (x0 : R) (xdim : Z) : result (list R) :=
  if bool_decide (xdim < 0)%Z then Raise ValueError
  else Ok ((λ a, add a x0) <$> replicate (Z.to_nat xdim) zero).

(** Line 87: [P0 = np.diag([P0] * xdim)]. *)
Definition P0_matrix (P0 : R) (xdim : Z) : matrix R :=
  np_diag (py_repeat P0 xdim).

(** What [get_ARMA_test] reads from the model and its fitted result. *)
Record arima_results := {
  k_ar : Z;
  k_ma : Z;
  k_exog : Z;
  resid : list R;
  param_names : list string;
  params : list R;
}.

(** [dict(zip(names, values))]: pairs up to the shorter list, a repeated
    key keeps its first place and takes the later value. *)
Definition dict_zip (names : list string) (values : list R)
  : list (string * R) :=
  fold_left (λ acc kv, dict_set acc kv.1 kv.2) (zip names values) [].

(** Lines 13-19, after the external fit. *)
Definition get_ARMA_test (fit : arima_results)
  : Z * Z * Z * list R * list (string * R) :=
  (k_ar fit, k_ma fit, k_exog fit, resid fit,
   dict_zip (param_names fit) (params fit)).

End SetUpRest.
Arguments arima_results R : clear implicits.

(** ** [kalman_filter] *)

Section Filter.
Context {R KF : Type} `{!Scalar R, !KalmanFilter R KF}.

(** The variables of the loop. [zs = zs[1:]] and [z = zs[k]] are views of
    the caller's array, so the state keeps that array ([tensor]) and the row
    of it that [z] views; row [k] of the trimmed [zs] is row [k + 1] of
    [tensor]. [updates] is a ghost field: the rows of [tensor] handed to
    [kfilter.update], in call order. *)
Record loop_state := {
  kfilter : KF;
  tensor : list (list R);
  z : nat;
  X_out : list (list R);
  X_pred : list (list R);
  P_out : list (matrix R);
  P_pred : list (matrix R);
  LL_out : list R;
  updates : list nat;
}.

(** [len(zs)] for the trimmed [zs]. *)
Definition len_zs (tensor : list (list R)) : Z :=
  (Z.of_nat (length tensor) - 1)%Z.

(** The row of [tensor] that [zs[k]] denotes. The source only forms indices
    [i + 1] and [i + iz + 1] from non-negative terms, so numpy's wrap-around
    of negative indices is left out: a negative [k] counts as outside. *)
Definition zs_index (tensor : list (list R)) (k : Z) : result nat :=
  if bool_decide (0 ≤ k < len_zs tensor)%Z then Ok (S (Z.to_nat k))
  else Raise (IndexError OutOfBounds).

Definition read_row (tensor : list (list R)) (r : nat) : result (list R) :=
  match tensor !! r with
  | Some row => Ok row
  | None => Raise (IndexError OutOfBounds)
  end.

(** [masks[iz]] on a Python list. *)
Definition list_getitem {A} (l : list A) (k : Z) : result A :=
  match l !! Z.to_nat k with
  | Some a => Ok a
  | None => Raise (IndexError ListIndex)
  end.

(** Line 125. *)
Definition ma_partial_mask (q : Z) (state_vars : list string)
  : list (list bool) :=
  (λ ix, (λ item, bool_decide (item = ma_name ix)) <$> state_vars)
    <$> range 1 (q + 1).

(** Line 130: [zs[i + 1, ma_bool_mask][0] - kfilter.x[0]]. *)
Definition ma_residual (i : Z) (state_vars : list string) (kf : KF)
    (tensor : list (list R)) : result R :=
  r ← zs_index tensor (i + 1);
  row ← read_row tensor r;
  selected ← mask_get (ma_bool_mask state_vars) row;
  a ← getitem0 selected;
  b ← getitem0 (x kf);
  Ok (sub a b).

(** Line 132: [zs[i + iz + 1, ma_partial_mask[iz]] = residual]. *)
Definition ma_write (q i : Z) (state_vars : list string) (residual : R)
    (iz : Z) (tensor : list (list R)) : result (list (list R)) :=
  mask ← list_getitem (ma_partial_mask q state_vars) iz;
  r ← zs_index tensor (i + iz + 1);
  row ← read_row tensor r;
  row' ← mask_set mask residual row;
  Ok (<[r := row']> tensor).

(** Lines 128-132. *)
Definition ma_injection (q i : Z) (state_vars : list string) (kf : KF)
    (tensor : list (list R)) : result (list (list R)) :=
  if bool_decide (q > 0)%Z then
    if bool_decide (i + q - 1 + 1 < len_zs tensor)%Z then
      residual ← ma_residual i state_vars kf tensor;
      for_each (ma_write q i state_vars residual) (range 0 q) tensor
    else Ok tensor
  else Ok tensor.

(** Line 135: [if i + 1 < len(zs): z = zs[i + 1]]. *)
Definition next_z (i : Z) (tensor : list (list R)) (z : nat) : result nat :=
  if bool_decide (i + 1 < len_zs tensor)%Z then zs_index tensor (i + 1)
  else Ok z.

(** Lines 115-139, one iteration. *)
Definition loop_body (q : Z) (state_vars : list string) (i : Z)
    (st : loop_state) : result loop_state :=
  let kf := predict (kfilter st) in
  let X_pred' := X_pred st ++ [x kf] in
  let P_pred' := P_pred st ++ [P kf] in
  obs ← read_row (tensor st) (z st);
  let kf := update kf obs in
  tensor' ← ma_injection q i state_vars kf (tensor st);
  z' ← next_z i tensor' (z st);
  Ok {| kfilter := kf; tensor := tensor'; z := z';
        X_out := X_out st ++ [x kf]; X_pred := X_pred';
        P_out := P_out st ++ [P kf]; P_pred := P_pred';
        LL_out := LL_out st ++ [log_likelihood kf];
        updates := updates st ++ [z st] |}.

(** Lines 141-144. *)
Definition final_predict (st : loop_state) : loop_state :=
  let kf := predict (kfilter st) in
  {| kfilter := kf; tensor := tensor st; z := z st;
     X_out := X_out st; X_pred := X_pred st ++ [x kf];
     P_out := P_out st; P_pred := P_pred st ++ [P kf];
     LL_out := LL_out st; updates := updates st |}.

(** Lines 107-111 on a non-empty tensor: empty output lists, [z = zs[0]]. *)
Definition initial_state (kfilter0 : KF) (zs : list (list R)) : loop_state :=
  {| kfilter := kfilter0; tensor := zs; z := 0;
     X_out := []; X_pred := []; P_out := []; P_pred := [];
     LL_out := []; updates := [] |}.

(** [kfilter0] is the filter object after lines 96-104, carrying [T], [Q],
    [Z], [H], [x0] and [P0]. The result keeps the whole final state: the five
    arrays returned by the source, the caller's tensor as the run leaves it,
    and the ghost [updates]. *)
Definition kalman_filter (p q d : Z) (kfilter0 : KF) (zs : list (list R))
    (state_vars : list string) : result loop_state :=
  match zs with
  | [] => Raise (IndexError OutOfBounds)
  | _ :: _ =>
      st ← for_each (loop_body q state_vars) (range 0 (len_zs zs + 1))
             (initial_state kfilter0 zs);
      Ok (final_predict st)
  end.

(** The plain recursion over a list of observations: the filter after each
    [predict] paired with the filter after the [update] that follows. *)
Fixpoint filter_run (kf : KF) (observed : list (list R)) : list (KF * KF) :=
  match observed with
  | [] => []
  | obs :: rest =>
      let predicted := predict kf in
      let updated := update predicted obs in
      (predicted, updated) :: filter_run updated rest
  end.

End Filter.
Arguments loop_state R KF : clear implicits.

(** ** Notions used to state the properties *)

Section Notions.
Context {R : Type} `{!Scalar R}.

(** A row with [one] in column [c] and [zero] elsewhere. *)
Definition onehot (n c : nat) : list R :=
  (λ j, indicator (bool_decide (j = c))) <$> seq 0 n.

(** The mean after one transition step, [dot(F, x)] in filterpy's
    [predict]. *)
Definition dot (r v : list R) : R := foldr add zero (zip_with mul r v).
Definition matvec (F : matrix R) (v : list R) : list R :=
  (λ r, dot r v) <$> F.

(** The laws of [0] and [1] that moving a value through a one-hot row
    needs. *)
Definition unit_laws : Prop :=
  (∀ a : R, mul zero a = zero) ∧ (∀ a : R, mul one a = a) ∧
  (∀ a : R, add zero a = a) ∧ (∀ a : R, add a zero = a).

End Notions.

(** [t'] differs from [t] at most in the slots of [ma.L1..ma.Lq] of the rows
    from row 2 on: same number of rows, same row lengths, rows 0 and 1 and
    every other column as they were. *)
Definition ma_frame {R} (q : Z) (state_vars : list string)
    (t t' : list (list R)) : Prop :=
  length t' = length t ∧ t' !! 0 = t !! 0 ∧ t' !! 1 = t !! 1 ∧
  ∀ (r : nat) row, t !! r = Some row →
    ∃ row', t' !! r = Some row' ∧ length row' = length row ∧
      ∀ j : nat,
        (∀ k, (1 ≤ k ≤ q)%Z → state_vars !! j ≠ Some (ma_name k)) →
        row' !! j = row !! j.

(** The two index errors that come from a mask, not from a row index. *)
Definition mask_error (e : exn) : Prop :=
  e = IndexError BooleanMismatch ∨ e = IndexError EmptySelection.

(** The characters [pretty] prints for a natural number. *)
Definition digit_chars : list ascii :=
  ["0"; "1"; "2"; "3"; "4"; "5"; "6"; "7"; "8"; "9"]%char.

Fixpoint all_digits (s : string) : Prop :=
  match s with
  | EmptyString => True
  | String c s' => c ∈ digit_chars ∧ all_digits s'
  end.

(** A name that carries neither lag marker. *)
Definition marker_free (s : string) : Prop :=
  contains "ar." s = false ∧ contains "ma." s = false.

(** The parameter names of a fitted ARMA-X model of order [(p, q)]: the AR
    lags 1..p in order, the MA lags 1..q in order, and around them names
    without a lag marker (trend, exogenous regressors, variance). Dictionary
    keys are distinct, and no exogenous column is named like a lag. *)
Definition fitted_names (p q : Z) (exog names : list string) : Prop :=
  NoDup names ∧ Forall marker_free exog ∧
  ∃ l0 l1 l2,
    names = l0 ++ (ar_name <$> range 1 (p + 1)) ++ l1
               ++ (ma_name <$> range 1 (q + 1)) ++ l2 ∧
    Forall marker_free (l0 ++ l1 ++ l2).

(** What the construction needs of the names: those that carry [ar.] are,
    in the order of the dictionary, the AR lags 1..p, those that carry [ma.]
    are the MA lags 1..q, and no exogenous parameter carries a marker.
    Fitted names are of this kind. *)
Definition lag_ordered (p q : Z) (exog names : list string) : Prop :=
  NoDup names ∧
  ar_params names = ar_name <$> range 1 (p + 1) ∧
  ma_parmas names = ma_name <$> range 1 (q + 1) ∧
  Forall marker_free (exo_params exog names).

(** ** Instances for concrete runs *)

Global Instance Z_scalar : Scalar Z :=
  {| zero := 0%Z; one := 1%Z; add := Z.add; sub := Z.sub; mul := Z.mul |}.

(** A stand-in filter whose state is the mean alone: [predict] keeps it and
    [update] moves it onto the observation. *)
(** A stand-in filter with a one-coordinate mean: [predict] doubles it and
    [update] adds the first entry of the observation. *)
Global Instance scalar_filter : KalmanFilter Z Z :=
  {| predict := λ kf, (2 * kf)%Z;
     update := λ kf obs, (kf + hd 0 obs)%Z;
     x := λ kf, [kf];
     P := λ kf, [[1%Z]];
     log_likelihood := λ kf, kf |}.

Global Instance echo_filter : KalmanFilter Z (list Z) :=
  {| predict := λ kf, kf;
     update := λ kf obs, zip_with Z.add kf obs;
     x := λ kf, kf;
     P := λ kf, [];
     log_likelihood := λ kf, 0%Z |}.

(** A short series for concrete runs, with one AR and one MA state
    variable, and the initial mean of the stand-in filter. *)
Definition demo_vars : list string := ["ar.L1"; "ma.L1"].
Definition demo_zs : list (list Z) := [[1; 0]; [2; 0]; [3; 0]; [4; 0]]%Z.
Definition demo_kf : list Z := [0; 0]%Z.

(** The same with two MA lags. *)
Definition demo_vars2 : list string := ["ar.L1"; "ma.L1"; "ma.L2"].
Definition demo_zs2 : list (list Z) :=
  [[1; 0; 0]; [2; 0; 0]; [3; 0; 0]; [4; 0; 0]; [5; 0; 0]]%Z.
Definition demo_kf2 : list Z := [0; 0; 0]%Z.

(** Fitted parameters of an ARMA(1,1) model with one regressor, in the order
    the fitting routine lists them, and a trimmed table of two rows. *)
Definition demo_params : list (string * Z) :=
  [("const", 9); ("x1", 2); ("ar.L1", 5); ("ma.L1", 6); ("sigma2", 7)]%Z.
Definition demo_df : frame Z :=
  {| columns := 3; values := [[1; 2; 3]; [4; 5; 6]]%Z |}.

(** A longer trimmed table for the same model, and what the fit exposes. *)
Definition demo_df4 : frame Z :=
  {| columns := 3;
     values := [[1; 2; 3]; [4; 5; 6]; [7; 8; 9]; [10; 11; 12]]%Z |}.
Definition demo_fit : arima_results Z :=
  {| k_ar := 1; k_ma := 1; k_exog := 1; resid := [0; 1; 0; 2]%Z;
     param_names := ["const"; "x1"; "ar.L1"; "ma.L1"; "sigma2"];
     params := [9; 2; 5; 6; 7]%Z |}.

(** An ARMA(2,2) model with one regressor and a trimmed table of four
    rows. *)
Definition arma22x_params : list (string * Z) :=
  [("const", 9); ("x1", 2); ("ar.L1", 5); ("ar.L2", 4); ("ma.L1", 6);
   ("ma.L2", 3); ("sigma2", 7)]%Z.
Definition arma22x_df : frame Z :=
  {| columns := 5;
     values := [[1; 2; 3; 4; 5]; [6; 7; 8; 9; 10]; [11; 12; 13; 14; 15];
                [16; 17; 18; 19; 20]]%Z |}.

(** Dictionaries that pass every assertion without following the fitting
    convention: the lags listed in decreasing order, and a seasonal MA name,
    which carries [ma.] but not [ma.L]. *)
Definition reversed_params : list (string * Z) :=
  [("ar.L2", 5); ("ar.L1", 6); ("ma.L2", 7); ("ma.L1", 8)]%Z.
Definition reversed_df : frame Z :=
  {| columns := 4;
     values := [[1; 2; 3; 4]; [5; 6; 7; 8]; [9; 10; 11; 12];
                [13; 14; 15; 16]]%Z |}.
Definition seasonal_params : list (string * Z) :=
  [("ar.L1", 5); ("ma.S.L4", 6)]%Z.
Definition seasonal_df : frame Z :=
  {| columns := 2; values := [[1; 2]; [3; 4]; [5; 6]; [7; 8]]%Z |}.

(** An ARMA(1,2) model and an MA(1) model without regressors. *)
Definition arma12_params : list (string * Z) :=
  [("ar.L1", 5); ("ma.L1", 6); ("ma.L2", 7)]%Z.
Definition ma1_params : list (string * Z) := [("ma.L1", 6)]%Z.
Definition ma1_df : frame Z := {| columns := 1; values := [[1]; [4]]%Z |}.

(** ** Properties of the Python primitives *)

Lemma bind_Ok {A B} (m : result A) (k : A → result B) (b : B) :
  m ≫= k = Ok b ↔ ∃ a, m = Ok a ∧ k a = Ok b.
Proof.
  destruct m as [a|e]; simpl.
  - split; [eauto | intros (a' & [= <-] & H); exact H].
  - split; [discriminate | intros (a' & [=] & _)].
Qed.

Lemma bind_Raise {A B} (m : result A) (k : A → result B) (e : exn) :
  m ≫= k = Raise e ↔ m = Raise e ∨ ∃ a, m = Ok a ∧ k a = Raise e.
Proof.
  destruct m as [a|e']; simpl.
  - split; [eauto | intros [[=] | (a' & [= <-] & H)]; exact H].
  - split; [intros [= ->]; auto | intros [[= ->] | (a' & [=] & _)]; auto].
Qed.

Lemma for_each_app {A S} (body : A → S → result S) (l1 l2 : list A) (s : S) :
  for_each body (l1 ++ l2) s = for_each body l1 s ≫= for_each body l2.
Proof.
  revert s; induction l1 as [|a l1 IH]; intros s; simpl; [done|].
  destruct (body a s) as [s1|e]; simpl; [apply IH | done].
Qed.

(** A loop keeps what every iteration keeps. *)
Lemma for_each_invariant {A S} (I : S → Prop) (body : A → S → result S)
    (l : list A) (s s' : S) :
  (∀ a t t', a ∈ l → I t → body a t = Ok t' → I t') →
  I s → for_each body l s = Ok s' → I s'.
Proof.
  revert s; induction l as [|a l IH]; intros s Hbody Hs; simpl.
  - intros [= <-]; assumption.
  - intros (s1 & H1 & H2)%bind_Ok.
    apply (IH s1); [| |assumption].
    + intros b t t' Hb; apply Hbody; by right.
    + eapply Hbody; [by left | exact Hs | exact H1].
Qed.

Lemma range_length (a b : Z) : length (range a b) = Z.to_nat (b - a).
Proof. unfold range. apply length_seqZ. Qed.

Lemma range_lookup (a b : Z) (k : nat) :
  (Z.of_nat k < b - a)%Z → range a b !! k = Some (a + Z.of_nat k)%Z.
Proof. intros H. unfold range. by apply lookup_seqZ_lt. Qed.

Lemma range_elem (a b i : Z) : i ∈ range a b ↔ (a ≤ i < b)%Z.
Proof. unfold range. rewrite elem_of_seqZ. lia. Qed.

Lemma range_snoc (a b : Z) :
  (a ≤ b)%Z → range a (b + 1) = range a b ++ [b].
Proof.
  intros H. unfold range.
  replace (b + 1 - a)%Z with ((b - a) + 1)%Z by lia.
  rewrite seqZ_app by lia. f_equal.
  replace (a + (b - a))%Z with b by lia. reflexivity.
Qed.

(** ** Properties of numpy masks *)

Section MaskFacts.
Context {R : Type}.
Implicit Types (row : list R) (mask : list bool).

Lemma assign_length mask (v : R) row : length (assign mask v row) = length row.
Proof.
  revert row; induction mask as [|b mask IH]; intros [|u row]; simpl; auto.
Qed.

Lemma assign_lookup_true mask (v : R) row (j : nat) :
  mask !! j = Some true → j < length row → assign mask v row !! j = Some v.
Proof.
  revert row j; induction mask as [|b mask IH]; intros [|u row] [|j];
    simpl; try done; try lia.
  - by intros [= ->].
  - intros Hm Hj. apply IH; [done | lia].
Qed.

Lemma assign_lookup_other mask (v : R) row (j : nat) :
  mask !! j ≠ Some true → assign mask v row !! j = row !! j.
Proof.
  revert row j; induction mask as [|b mask IH]; intros [|u row] [|j];
    simpl; try done.
  - destruct b; done.
  - apply IH.
Qed.

Lemma mask_set_Ok mask (v : R) row row' :
  mask_set mask v row = Ok row' →
  mask_fits mask (length row) = true ∧ row' = assign mask v row.
Proof. unfold mask_set. by destruct (mask_fits _ _); intros [=]. Qed.

(** A mask that fits and is set at [j] covers column [j] of the row. *)
Lemma mask_fits_lookup mask (n j : nat) (b : bool) :
  mask_fits mask n = true → mask !! j = Some b → j < n.
Proof.
  intros Hfit Hj. apply lookup_lt_Some in Hj.
  destruct mask as [|b0 mask]; simpl in *; [lia|].
  apply bool_decide_eq_true in Hfit. simpl in Hfit. lia.
Qed.

Lemma mask_set_Raise mask (v : R) row e :
  mask_set mask v row = Raise e → e = IndexError BooleanMismatch.
Proof. unfold mask_set. by destruct (mask_fits _ _); intros [=]. Qed.

Lemma mask_get_Ok mask row sel :
  mask_get mask row = Ok sel → sel = select mask row.
Proof. unfold mask_get. by destruct (mask_fits _ _); intros [=]. Qed.

Lemma mask_get_Raise mask row e :
  mask_get mask row = Raise e → e = IndexError BooleanMismatch.
Proof. unfold mask_get. by destruct (mask_fits _ _); intros [=]. Qed.

Lemma getitem0_Raise (a : list R) e :
  getitem0 a = Raise e → e = IndexError EmptySelection.
Proof. by destruct a; intros [=]. Qed.

Lemma mask_fits_same_length mask (n : nat) :
  length mask = n → mask_fits mask n = true.
Proof.
  intros <-. destruct mask; [done|]. by apply bool_decide_eq_true_2.
Qed.

Lemma select_nonempty mask row (j : nat) :
  mask !! j = Some true → j < length row → select mask row ≠ [].
Proof.
  revert row j; induction mask as [|b mask IH]; intros [|v row] [|j];
    simpl; try done; try lia.
  - by intros [= ->].
  - intros Hm Hj. destruct b; [done|]. apply (IH row j); [done | lia].
Qed.

End MaskFacts.

(** ** The filtering loop, step by step *)

Section FilterFacts.
Context {R KF : Type} `{!Scalar R, !KalmanFilter R KF}.
Implicit Types (t : list (list R)) (st : loop_state R KF) (kf : KF).

Lemma zs_index_Ok t (k : Z) (r : nat) :
  zs_index t k = Ok r ↔ (0 ≤ k < len_zs t)%Z ∧ r = S (Z.to_nat k).
Proof.
  unfold zs_index. case_bool_decide; split.
  - by intros [= <-].
  - by intros [_ ->].
  - discriminate.
  - intros [? _]; contradiction.
Qed.

Lemma zs_index_Raise t (k : Z) e :
  zs_index t k = Raise e → ¬ (0 ≤ k < len_zs t)%Z.
Proof. unfold zs_index. by case_bool_decide. Qed.

Lemma zs_index_bound t (k : Z) (r : nat) :
  zs_index t k = Ok r → r < length t.
Proof. intros [Hk ->]%zs_index_Ok. unfold len_zs in Hk. lia. Qed.

Lemma read_row_Ok t (r : nat) row :
  read_row t r = Ok row ↔ t !! r = Some row.
Proof.
  unfold read_row. destruct (t !! r); split; congruence.
Qed.

Lemma read_row_in_bounds t (r : nat) :
  r < length t → ∃ row, read_row t r = Ok row.
Proof.
  intros [row Hrow]%lookup_lt_is_Some_2. exists row. by apply read_row_Ok.
Qed.

Lemma len_zs_insert t (r : nat) (row : list R) :
  len_zs (<[r := row]> t) = len_zs t.
Proof. unfold len_zs. by rewrite length_insert. Qed.

Lemma ma_partial_mask_lookup (q iz : Z) (state_vars : list string) :
  (0 ≤ iz < q)%Z →
  ma_partial_mask q state_vars !! Z.to_nat iz
  = Some ((λ item, bool_decide (item = ma_name (iz + 1))) <$> state_vars).
Proof.
  intros H. unfold ma_partial_mask.
  rewrite list_lookup_fmap, range_lookup by lia. simpl.
  replace (1 + Z.of_nat (Z.to_nat iz))%Z with (iz + 1)%Z by lia.
  reflexivity.
Qed.

(** What one write does when it returns. *)
Lemma ma_write_Ok (q i iz : Z) state_vars (residual : R) t t' :
  (0 ≤ iz < q)%Z →
  ma_write q i state_vars residual iz t = Ok t' →
  ∃ row, (0 ≤ i + iz + 1 < len_zs t)%Z ∧
    t !! S (Z.to_nat (i + iz + 1)) = Some row ∧
    mask_fits ((λ item, bool_decide (item = ma_name (iz + 1)))
                 <$> state_vars) (length row) = true ∧
    t' = <[S (Z.to_nat (i + iz + 1)) :=
            assign ((λ item, bool_decide (item = ma_name (iz + 1)))
                      <$> state_vars) residual row]> t.
Proof.
  intros Hiz. unfold ma_write, list_getitem.
  rewrite ma_partial_mask_lookup by done. simpl.
  intros (r & [Hr ->]%zs_index_Ok & H)%bind_Ok.
  apply bind_Ok in H as (row & Hrow%read_row_Ok & H).
  apply bind_Ok in H as (row' & [Hfit ->]%mask_set_Ok & [= <-]).
  exists row. done.
Qed.

(** One write in bounds returns, or the mask does not fit the row. *)
Lemma ma_write_safe (q i iz : Z) state_vars (residual : R) t :
  (0 ≤ iz < q)%Z → (0 ≤ i)%Z → (i + q < len_zs t)%Z →
  (∃ t', ma_write q i state_vars residual iz t = Ok t') ∨
  ma_write q i state_vars residual iz t = Raise (IndexError BooleanMismatch).
Proof.
  intros Hiz Hi Hq. unfold ma_write, list_getitem.
  rewrite ma_partial_mask_lookup by done. simpl.
  assert (zs_index t (i + iz + 1) = Ok (S (Z.to_nat (i + iz + 1)))) as ->.
  { apply zs_index_Ok. split; [lia | done]. }
  simpl.
  destruct (read_row_in_bounds t (S (Z.to_nat (i + iz + 1)))) as [row ->].
  { unfold len_zs in Hq. lia. }
  simpl. destruct (mask_set _ residual row) as [row'|e] eqn:Hset; simpl.
  - left; eauto.
  - right. by apply mask_set_Raise in Hset as ->.
Qed.

Lemma ma_write_len (q i iz : Z) state_vars (residual : R) t t' :
  (0 ≤ iz < q)%Z →
  ma_write q i state_vars residual iz t = Ok t' → length t' = length t.
Proof.
  intros Hiz (row & _ & _ & _ & ->)%ma_write_Ok; [|done].
  apply length_insert.
Qed.

(** The writes of one injection, over any part of [range(0, q)]. *)
Lemma ma_writes_safe (q i : Z) state_vars (residual : R) (l : list Z) t :
  (∀ iz, iz ∈ l → (0 ≤ iz < q)%Z) → (0 ≤ i)%Z → (i + q < len_zs t)%Z →
  (∃ t', for_each (ma_write q i state_vars residual) l t = Ok t'
         ∧ length t' = length t) ∨
  for_each (ma_write q i state_vars residual) l t
  = Raise (IndexError BooleanMismatch).
Proof.
  revert t; induction l as [|iz l IH]; intros t Hl Hi Hq; simpl.
  - left; eauto.
  - assert (0 ≤ iz < q)%Z as Hiz by (apply Hl; by left).
    destruct (ma_write_safe q i iz state_vars residual t) as [[t1 H1]|H1];
      try done; rewrite H1; simpl; [|by right].
    pose proof (ma_write_len _ _ _ _ _ _ _ Hiz H1) as Hlen.
    destruct (IH t1) as [(t' & H2 & Hlen')|H2].
    + intros iz' ?. apply Hl. by right.
    + done.
    + unfold len_zs in *. lia.
    + left. exists t'. split; [done | congruence].
    + by right.
Qed.

Lemma ma_residual_Raise (i : Z) state_vars kf t e :
  (0 ≤ i + 1 < len_zs t)%Z →
  ma_residual i state_vars kf t = Raise e → mask_error e.
Proof.
  intros Hi. unfold ma_residual.
  assert (zs_index t (i + 1) = Ok (S (Z.to_nat (i + 1)))) as ->.
  { apply zs_index_Ok. done. }
  simpl. destruct (read_row_in_bounds t (S (Z.to_nat (i + 1)))) as [row ->].
  { unfold len_zs in Hi. lia. }
  simpl. intros [H|(sel & _ & H)]%bind_Raise.
  { left. by eapply mask_get_Raise. }
  apply bind_Raise in H as [H|(a & _ & H)].
  { right. by eapply getitem0_Raise. }
  apply bind_Raise in H as [H|(b & _ & [=])].
  right. by eapply getitem0_Raise.
Qed.

(** The injection leaves the tensor alone when a guard fails. *)
Lemma ma_injection_skipped (q i : Z) state_vars kf t :
  ¬ ((q > 0)%Z ∧ (i + q < len_zs t)%Z) →
  ma_injection q i state_vars kf t = Ok t.
Proof.
  intros H. unfold ma_injection.
  repeat case_bool_decide; try done. exfalso. apply H. lia.
Qed.

Lemma ma_injection_safe (q i : Z) state_vars kf t :
  (0 ≤ i)%Z →
  (∃ t', ma_injection q i state_vars kf t = Ok t' ∧ length t' = length t) ∨
  (∃ e, ma_injection q i state_vars kf t = Raise e ∧ mask_error e).
Proof.
  intros Hi. unfold ma_injection.
  case_bool_decide as Hq; [|left; eauto].
  case_bool_decide as Hlen; [|left; eauto].
  destruct (ma_residual i state_vars kf t) as [residual|e] eqn:Hres; simpl.
  - destruct (ma_writes_safe q i state_vars residual (range 0 q) t)
      as [(t' & -> & Hl) | ->]; try lia.
    + intros iz. rewrite range_elem. lia.
    + left; eauto.
    + right. eexists. split; [done | by left].
  - right. exists e. split; [done|].
    eapply ma_residual_Raise; [|done]. lia.
Qed.

Lemma ma_injection_len (q i : Z) state_vars kf t t' :
  ma_injection q i state_vars kf t = Ok t' → length t' = length t.
Proof.
  unfold ma_injection.
  case_bool_decide as Hq; [|by intros [= <-]].
  case_bool_decide as Hlen; [|by intros [= <-]].
  intros (residual & _ & H)%bind_Ok. revert H.
  apply (for_each_invariant (λ u, length u = length t)); [|done].
  intros iz u u' Hiz%range_elem Hu Hw.
  rewrite <- Hu. eapply ma_write_len; [|done]. lia.
Qed.

(** [z] moves to row [i + 1] of the trimmed tensor exactly when that row
    exists. *)
Lemma next_z_spec (i : Z) t (z0 : nat) :
  (0 ≤ i)%Z →
  next_z i t z0
  = Ok (if bool_decide (i + 1 < len_zs t)%Z then S (Z.to_nat (i + 1)) else z0).
Proof.
  intros Hi. unfold next_z. case_bool_decide; [|done].
  apply zs_index_Ok. split; [lia | done].
Qed.

(** Inversion of one completed iteration. *)
Lemma loop_body_Ok (q i : Z) state_vars st st' :
  (0 ≤ i)%Z →
  loop_body q state_vars i st = Ok st' →
  ∃ obs,
    tensor st !! z st = Some obs ∧
    kfilter st' = update (predict (kfilter st)) obs ∧
    ma_injection q i state_vars (kfilter st') (tensor st) = Ok (tensor st') ∧
    z st' = (if bool_decide (i + 1 < len_zs (tensor st))%Z
             then S (Z.to_nat (i + 1)) else z st) ∧
    X_out st' = X_out st ++ [x (kfilter st')] ∧
    X_pred st' = X_pred st ++ [x (predict (kfilter st))] ∧
    P_out st' = P_out st ++ [P (kfilter st')] ∧
    P_pred st' = P_pred st ++ [P (predict (kfilter st))] ∧
    LL_out st' = LL_out st ++ [log_likelihood (kfilter st')] ∧
    updates st' = updates st ++ [z st].
Proof.
  intros Hi. unfold loop_body.
  intros (obs & Hobs%read_row_Ok & H)%bind_Ok.
  apply bind_Ok in H as (t' & Ht' & H).
  rewrite next_z_spec in H by done. simpl in H. injection H as <-. simpl.
  exists obs. repeat split; try done.
  unfold len_zs. by rewrite (ma_injection_len _ _ _ _ _ _ Ht').
Qed.

(** One iteration from a state whose [z] views a row of the tensor returns
    such a state, or stops on a mask error. *)
Lemma loop_body_safe (q i : Z) state_vars st :
  (0 ≤ i)%Z → z st < length (tensor st) →
  (∃ st', loop_body q state_vars i st = Ok st') ∨
  (∃ e, loop_body q state_vars i st = Raise e ∧ mask_error e).
Proof.
  intros Hi Hz. unfold loop_body.
  destruct (read_row_in_bounds _ _ Hz) as [obs ->]. simpl.
  destruct (ma_injection_safe q i state_vars
              (update (predict (kfilter st)) obs) (tensor st) Hi)
    as [(t' & -> & Hl)|(e & -> & He)]; simpl.
  - rewrite next_z_spec by done. simpl. left; eauto.
  - right; eauto.
Qed.

Lemma loop_body_keeps (q i : Z) state_vars st st' :
  (0 ≤ i)%Z → z st < length (tensor st) →
  loop_body q state_vars i st = Ok st' →
  length (tensor st') = length (tensor st) ∧ z st' < length (tensor st').
Proof.
  intros Hi Hz H.
  apply loop_body_Ok in H as (obs & _ & _ & Hinj & Hz' & _); [|done].
  apply ma_injection_len in Hinj. split; [done|].
  rewrite Hz', Hinj. case_bool_decide as Hlt; [|done].
  unfold len_zs in Hlt. lia.
Qed.

(** The iterations of a loop over non-negative indices. *)
Lemma loop_safe (q : Z) state_vars (l : list Z) st :
  (∀ i, i ∈ l → (0 ≤ i)%Z) → z st < length (tensor st) →
  (∃ st', for_each (loop_body q state_vars) l st = Ok st') ∨
  (∃ e, for_each (loop_body q state_vars) l st = Raise e ∧ mask_error e).
Proof.
  revert st; induction l as [|i l IH]; intros st Hl Hz; simpl.
  - left; eauto.
  - assert (0 ≤ i)%Z as Hi by (apply Hl; by left).
    destruct (loop_body_safe q i state_vars st Hi Hz)
      as [[st1 H1]|(e & -> & He)]; [|right; eauto].
    rewrite H1; simpl.
    apply IH; [intros j ?; apply Hl; by right|].
    by apply (loop_body_keeps q i state_vars st st1).
Qed.

Lemma loop_keeps (q : Z) state_vars (l : list Z) st st' :
  (∀ i, i ∈ l → (0 ≤ i)%Z) → z st < length (tensor st) →
  for_each (loop_body q state_vars) l st = Ok st' →
  length (tensor st') = length (tensor st) ∧ z st' < length (tensor st').
Proof.
  intros Hl Hz.
  apply (for_each_invariant
           (λ u, length (tensor u) = length (tensor st)
                 ∧ z u < length (tensor u))); [|done].
  intros i u u' Hi%Hl [Hu1 Hu2] Hb.
  destruct (loop_body_keeps q i state_vars u u' Hi Hu2 Hb). split; congruence.
Qed.

(** Every iteration appends one element to each output list. *)
Lemma loop_lengths (q : Z) state_vars (l : list Z) st st' :
  (∀ i, i ∈ l → (0 ≤ i)%Z) →
  for_each (loop_body q state_vars) l st = Ok st' →
  length (X_out st') = length (X_out st) + length l ∧
  length (P_out st') = length (P_out st) + length l ∧
  length (LL_out st') = length (LL_out st) + length l ∧
  length (X_pred st') = length (X_pred st) + length l ∧
  length (P_pred st') = length (P_pred st) + length l.
Proof.
  revert st; induction l as [|i l IH]; intros st Hl; simpl.
  - intros [= <-]. lia.
  - intros (st1 & H1 & H2)%bind_Ok.
    apply loop_body_Ok in H1
      as (obs & _ & _ & _ & _ & HX & HXp & HP & HPp & HLL & _);
      [|apply Hl; by left].
    apply IH in H2; [|intros j ?; apply Hl; by right].
    rewrite HX, HXp, HP, HPp, HLL, !length_app in H2. simpl in H2. lia.
Qed.

(** The row of the caller's tensor that the write for [iz] at step [i]
    targets, as a function of [i + iz + 1]. *)
Lemma row_of_index_inj (a b : Z) :
  (0 ≤ a)%Z → (0 ≤ b)%Z → S (Z.to_nat a) = S (Z.to_nat b) → a = b.
Proof. lia. Qed.

(** The writes of one injection go to distinct rows: each targeted row is
    masked-assigned once, every other row is left as it was. *)
Lemma ma_writes_lookup (q i : Z) state_vars (residual : R) (l : list Z) t t' :
  NoDup l → (∀ iz, iz ∈ l → (0 ≤ iz < q)%Z) → (0 ≤ i)%Z →
  for_each (ma_write q i state_vars residual) l t = Ok t' →
  (∀ iz, iz ∈ l → ∃ row,
     t !! S (Z.to_nat (i + iz + 1)) = Some row ∧
     mask_fits ((λ item, bool_decide (item = ma_name (iz + 1)))
                  <$> state_vars) (length row) = true ∧
     t' !! S (Z.to_nat (i + iz + 1))
     = Some (assign ((λ item, bool_decide (item = ma_name (iz + 1)))
                       <$> state_vars) residual row)) ∧
  (∀ r, (∀ iz, iz ∈ l → r ≠ S (Z.to_nat (i + iz + 1))) → t' !! r = t !! r).
Proof.
  intros Hnd Hl Hi. revert t.
  induction l as [|iz0 l IH]; intros t; simpl.
  - intros [= <-]. split; [intros iz []%elem_of_nil | done].
  - apply NoDup_cons in Hnd as [Hfresh Hnd].
    assert (0 ≤ iz0 < q)%Z as Hiz0 by (apply Hl; by left).
    intros (t1 & H1 & H2)%bind_Ok.
    apply ma_write_Ok in H1 as (row0 & Hb0 & Hrow0 & Hfit0 & ->); [|done].
    destruct (IH Hnd (λ iz H, Hl iz (list_elem_of_further _ _ _ H)) _ H2)
      as [IHa IHb].
    split.
    + intros iz [->|Hin]%elem_of_cons.
      * exists row0. do 2 (split; [done|]).
        rewrite IHb.
        { apply list_lookup_insert_eq. by eapply lookup_lt_Some. }
        intros iz Hin Heq. apply row_of_index_inj in Heq; [|lia|].
        { assert (iz0 = iz) as -> by lia. done. }
        specialize (Hl iz (list_elem_of_further _ _ _ Hin)). lia.
      * destruct (IHa iz Hin) as (row & Hrow & Hfit & Hrow').
        exists row. split; [|done].
        rewrite list_lookup_insert_ne in Hrow; [done|].
        intros Heq. apply row_of_index_inj in Heq; [|lia|].
        { assert (iz0 = iz) as -> by lia. done. }
        specialize (Hl iz (list_elem_of_further _ _ _ Hin)). lia.
    + intros r Hr. rewrite IHb.
      * apply list_lookup_insert_ne. intros Heq.
        by apply (Hr iz0); [left|].
      * intros iz Hin. apply Hr. by right.
Qed.

(** What a performed injection computes and writes. *)
Lemma ma_injection_Ok (q i : Z) state_vars kf t t' :
  (q > 0)%Z → (0 ≤ i)%Z → (i + q < len_zs t)%Z →
  ma_injection q i state_vars kf t = Ok t' →
  ∃ row1 a b,
    t !! S (Z.to_nat (i + 1)) = Some row1 ∧
    getitem0 (select (ma_bool_mask state_vars) row1) = Ok a ∧
    getitem0 (x kf) = Ok b ∧
    (∀ iz, (0 ≤ iz < q)%Z → ∃ row,
       t !! S (Z.to_nat (i + iz + 1)) = Some row ∧
       mask_fits ((λ item, bool_decide (item = ma_name (iz + 1)))
                    <$> state_vars) (length row) = true ∧
       t' !! S (Z.to_nat (i + iz + 1))
       = Some (assign ((λ item, bool_decide (item = ma_name (iz + 1)))
                         <$> state_vars) (sub a b) row)) ∧
    (∀ r, (∀ iz, (0 ≤ iz < q)%Z → r ≠ S (Z.to_nat (i + iz + 1))) →
       t' !! r = t !! r).
Proof.
  intros Hq Hi Hlen. unfold ma_injection.
  rewrite !bool_decide_eq_true_2 by lia.
  intros (residual & Hres & Hw)%bind_Ok.
  unfold ma_residual in Hres.
  apply bind_Ok in Hres as (r & [_ ->]%zs_index_Ok & Hres).
  apply bind_Ok in Hres as (row1 & Hrow1%read_row_Ok & Hres).
  apply bind_Ok in Hres as (sel & ->%mask_get_Ok & Hres).
  apply bind_Ok in Hres as (a & Ha & Hres).
  apply bind_Ok in Hres as (b & Hb & [= <-]).
  exists row1, a, b. repeat (split; [done|]).
  apply ma_writes_lookup in Hw as [Hwa Hwb]; [| | |done].
  - split.
    + intros iz Hiz. apply Hwa, range_elem. lia.
    + intros r Hr. apply Hwb. intros iz Hiz%range_elem. apply Hr. lia.
  - unfold range. apply NoDup_seqZ.
  - intros iz Hiz%range_elem. lia.
Qed.

(** ** The injection step *)

(** C1. At a loop step [i] with [q > 0] and [i + q] inside the trimmed
    tensor, the residual is the first MA-masked entry of row [i + 1] (as
    stored before this step writes) minus the first coordinate of the mean
    after this step's update; for every [iz] in [0..q-1] the slot of
    [ma.L{iz+1}] in row [i + iz + 1] holds that residual after the step, and
    the other columns of the row keep their value. The tensor before the step
    is arbitrary, so whatever an earlier step wrote into such a slot is
    replaced: the later writer wins. *)
Theorem ma_injection_writes_residual (q i : Z) state_vars st st' :
  (q > 0)%Z → (0 ≤ i)%Z → (i + q < len_zs (tensor st))%Z →
  loop_body q state_vars i st = Ok st' →
  ∃ obs row1 a b,
    tensor st !! z st = Some obs ∧
    kfilter st' = update (predict (kfilter st)) obs ∧
    tensor st !! S (Z.to_nat (i + 1)) = Some row1 ∧
    getitem0 (select (ma_bool_mask state_vars) row1) = Ok a ∧
    getitem0 (x (kfilter st')) = Ok b ∧
    ∀ iz, (0 ≤ iz < q)%Z → ∃ row row',
      tensor st !! S (Z.to_nat (i + iz + 1)) = Some row ∧
      tensor st' !! S (Z.to_nat (i + iz + 1)) = Some row' ∧
      ∀ j : nat,
        (state_vars !! j = Some (ma_name (iz + 1)) →
         row' !! j = Some (sub a b)) ∧
        (state_vars !! j ≠ Some (ma_name (iz + 1)) → row' !! j = row !! j).
Proof.
  intros Hq Hi Hlen Hbody.
  apply loop_body_Ok in Hbody as (obs & Hobs & Hkf & Hinj & _); [|done].
  apply ma_injection_Ok in Hinj as (row1 & a & b & Hrow1 & Ha & Hb & Hw & _);
    try done.
  exists obs, row1, a, b. repeat (split; [done|]).
  intros iz Hiz. destruct (Hw iz Hiz) as (row & Hrow & Hfit & Hrow').
  eexists row, _. repeat (split; [done|]).
  intros j. split; intros Hj.
  - apply assign_lookup_true.
    + rewrite list_lookup_fmap, Hj. simpl. by rewrite bool_decide_eq_true_2.
    + eapply mask_fits_lookup; [exact Hfit|].
      rewrite list_lookup_fmap, Hj. reflexivity.
  - apply assign_lookup_other. rewrite list_lookup_fmap.
    destruct (state_vars !! j) as [name|] eqn:Hname; simpl; [|done].
    intros [= Heq%bool_decide_eq_true]. congruence.
Qed.

(** ** Output lengths *)

Lemma loop_range_length (zs : list (list R)) :
  zs ≠ [] → length (range 0 (len_zs zs + 1)) = length zs.
Proof.
  intros Hzs. rewrite range_length. unfold len_zs.
  destruct zs; [done|]. simpl length. lia.
Qed.

Lemma kalman_filter_Ok (p q d : Z) kf (zs : list (list R)) state_vars st :
  kalman_filter p q d kf zs state_vars = Ok st →
  zs ≠ [] ∧ ∃ st1,
    for_each (loop_body q state_vars) (range 0 (len_zs zs + 1))
      (initial_state kf zs) = Ok st1
    ∧ st = final_predict st1.
Proof.
  unfold kalman_filter. destruct zs as [|z0 zs]; [done|].
  intros (st1 & H1 & [= <-])%bind_Ok. split; [done|]. eauto.
Qed.

(** C4. After a completed run the filtered means, filtered covariances and
    log-likelihoods have [len(zs)] elements each and the predicted means and
    covariances [len(zs) + 1]; the last predicted pair is the mean and
    covariance left by the final [predict], which no update follows (the
    filtered arrays are those of the loop). *)
Theorem output_lengths (p q d : Z) kf (zs : list (list R)) state_vars st :
  kalman_filter p q d kf zs state_vars = Ok st →
  length (X_out st) = length zs ∧
  length (P_out st) = length zs ∧
  length (LL_out st) = length zs ∧
  length (X_pred st) = length zs + 1 ∧
  length (P_pred st) = length zs + 1 ∧
  ∃ st1,
    kfilter st = predict (kfilter st1) ∧
    X_pred st = X_pred st1 ++ [x (kfilter st)] ∧
    P_pred st = P_pred st1 ++ [P (kfilter st)] ∧
    X_out st = X_out st1 ∧ P_out st = P_out st1 ∧ LL_out st = LL_out st1 ∧
    length (X_pred st1) = length zs.
Proof.
  intros (Hzs & st1 & Hloop & ->)%kalman_filter_Ok.
  apply loop_lengths in Hloop as (HX & HP & HLL & HXp & HPp).
  2: { intros i Hi%range_elem. lia. }
  rewrite loop_range_length in * by done. simpl in *.
  rewrite !length_app. simpl.
  repeat (split; [lia|]). exists st1. repeat split; lia.
Qed.

(** ** Index safety *)

Lemma initial_state_view kf (z0 : list R) (zs : list (list R)) :
  z (initial_state kf (z0 :: zs)) < length (tensor (initial_state kf (z0 :: zs))).
Proof. simpl. lia. Qed.

Lemma kalman_filter_Raise (p q d : Z) kf (z0 : list R) zs state_vars e :
  kalman_filter p q d kf (z0 :: zs) state_vars = Raise e → mask_error e.
Proof.
  unfold kalman_filter. intros [H|(st & _ & [=])]%bind_Raise.
  destruct (loop_safe q state_vars (range 0 (len_zs (z0 :: zs) + 1))
              (initial_state kf (z0 :: zs)))
    as [[st' H']|(e' & H' & He')].
  - intros i Hi%range_elem. lia.
  - apply initial_state_view.
  - rewrite H' in H. discriminate.
  - rewrite H' in H. by injection H as <-.
Qed.

(** C5. Injection happens only under its guard and advancement only under
    its own: when [q > 0] and [i + q < len(zs)] fail the tensor is returned
    as it is, and when [i + 1 < len(zs)] fails [z] is kept. Under the guards
    every row index the step uses ([i + 1] and [i + iz + 1] for [iz < q])
    denotes a row of the tensor. So a run over a non-empty tensor, for any
    [p], [q], [d] and any length, never stops on an index outside the
    tensor (nor outside the list of masks); it can only stop on a mask that
    does not fit a row or selects nothing. *)
Theorem loop_indices_in_bounds (p q d : Z) kf (z0 : list R) zs state_vars :
  (∀ i kf' t, ¬ ((q > 0)%Z ∧ (i + q < len_zs t)%Z) →
     ma_injection q i state_vars kf' t = Ok t) ∧
  (∀ i t (z1 : nat), ¬ (i + 1 < len_zs t)%Z → next_z i t z1 = Ok z1) ∧
  (∀ i t k, (0 ≤ i)%Z → (q > 0)%Z → (i + q < len_zs t)%Z →
     (i + 1 ≤ k ≤ i + q)%Z → ∃ r, zs_index t k = Ok r ∧ r < length t) ∧
  (∀ i t, (0 ≤ i)%Z → (i + 1 < len_zs t)%Z →
     ∃ r, zs_index t (i + 1) = Ok r ∧ r < length t) ∧
  kalman_filter p q d kf (z0 :: zs) state_vars
    ≠ Raise (IndexError OutOfBounds) ∧
  kalman_filter p q d kf (z0 :: zs) state_vars
    ≠ Raise (IndexError ListIndex) ∧
  (∀ e, kalman_filter p q d kf (z0 :: zs) state_vars = Raise e →
     mask_error e).
Proof.
  split; [intros i kf' t; apply ma_injection_skipped|].
  split.
  { intros i t z1 H. unfold next_z. by rewrite bool_decide_eq_false_2. }
  split.
  { intros i t k Hi Hq Hlen Hk. exists (S (Z.to_nat k)).
    assert (zs_index t k = Ok (S (Z.to_nat k))) as Hr.
    { apply zs_index_Ok. split; [lia | done]. }
    split; [done | by eapply zs_index_bound]. }
  split.
  { intros i t Hi Hlen. exists (S (Z.to_nat (i + 1))).
    assert (zs_index t (i + 1) = Ok (S (Z.to_nat (i + 1)))) as Hr.
    { apply zs_index_Ok. split; [lia | done]. }
    split; [done | by eapply zs_index_bound]. }
  split; [|split].
  - intros [H|H]%kalman_filter_Raise; discriminate.
  - intros [H|H]%kalman_filter_Raise; discriminate.
  - intros e. apply kalman_filter_Raise.
Qed.

(** ** The degenerate case [q = 0] *)

Lemma loop_q0 state_vars (l : list Z) st :
  (∀ i, i ∈ l → (0 ≤ i)%Z) → z st < length (tensor st) →
  ∃ st', for_each (loop_body 0 state_vars) l st = Ok st'
         ∧ tensor st' = tensor st.
Proof.
  revert st; induction l as [|i l IH]; intros st Hl Hz; simpl.
  - eauto.
  - assert (0 ≤ i)%Z as Hi by (apply Hl; by left).
    destruct (loop_body_safe 0 i state_vars st Hi Hz)
      as [[st1 H1]|(e & H1 & He)].
    + rewrite H1. simpl.
      destruct (loop_body_keeps 0 i state_vars st st1 Hi Hz H1) as [_ Hz1].
      apply loop_body_Ok in H1 as (obs & _ & _ & Hinj & _); [|done].
      rewrite ma_injection_skipped in Hinj by lia. injection Hinj as Ht.
      destruct (IH st1) as (st' & H' & Ht');
        [intros j ?; apply Hl; by right | done |].
      exists st'. split; [done | congruence].
    + exfalso. unfold loop_body in H1.
      apply bind_Raise in H1 as [H1|(obs & _ & H1)].
      { destruct (read_row_in_bounds _ _ Hz) as [obs Hobs]. congruence. }
      rewrite ma_injection_skipped in H1 by lia. simpl in H1.
      rewrite next_z_spec in H1 by done. discriminate.
Qed.

(** C9. With [q = 0] the injection branch returns the tensor unchanged at
    every step, and the run over a non-empty tensor completes and leaves
    every entry of the caller's tensor as it was. *)
Theorem q0_never_mutates_zs (p d : Z) kf (z0 : list R) zs state_vars :
  (∀ i kf' t, ma_injection 0 i state_vars kf' t = Ok t) ∧
  ∃ st, kalman_filter p 0 d kf (z0 :: zs) state_vars = Ok st
        ∧ tensor st = z0 :: zs.
Proof.
  split; [intros; apply ma_injection_skipped; lia|].
  unfold kalman_filter.
  destruct (loop_q0 state_vars (range 0 (len_zs (z0 :: zs) + 1))
              (initial_state kf (z0 :: zs)))
    as (st1 & -> & Ht).
  - intros i Hi%range_elem. lia.
  - apply initial_state_view.
  - simpl. eexists. split; [done|]. simpl. exact Ht.
Qed.

(** ** Which rows reach [update] *)




(** ** Completion on conforming inputs *)

(** When every row has one entry per state variable, the writes of an
    injection in bounds all return and keep that shape. *)
Lemma ma_writes_total (q i : Z) state_vars (residual : R) (l : list Z) t :
  (∀ iz, iz ∈ l → (0 ≤ iz < q)%Z) → (0 ≤ i)%Z → (i + q < len_zs t)%Z →
  Forall (λ row, length row = length state_vars) t →
  ∃ t', for_each (ma_write q i state_vars residual) l t = Ok t'
        ∧ length t' = length t
        ∧ Forall (λ row, length row = length state_vars) t'.
Proof.
  revert t; induction l as [|iz l IH]; intros t Hl Hi Hq Hrows; simpl.
  - eauto.
  - assert (0 ≤ iz < q)%Z as Hiz by (apply Hl; by left).
    assert (∃ t1, ma_write q i state_vars residual iz t = Ok t1
                  ∧ length t1 = length t
                  ∧ Forall (λ row, length row = length state_vars) t1)
      as (t1 & H1 & Hlen1 & Hrows1).
    { unfold ma_write, list_getitem.
      rewrite ma_partial_mask_lookup by done. simpl.
      assert (zs_index t (i + iz + 1) = Ok (S (Z.to_nat (i + iz + 1))))
        as ->.
      { apply zs_index_Ok. split; [lia | done]. }
      simpl.
      destruct (read_row_in_bounds t (S (Z.to_nat (i + iz + 1))))
        as [row Hrow].
      { unfold len_zs in Hq. lia. }
      rewrite Hrow. simpl.
      apply read_row_Ok in Hrow.
      assert (length row = length state_vars) as Hrl.
      { rewrite Forall_forall in Hrows. apply Hrows.
        by eapply list_elem_of_lookup_2. }
      unfold mask_set.
      rewrite mask_fits_same_length by (by rewrite length_fmap).
      simpl. eexists. split; [done|]. split; [apply length_insert|].
      apply Forall_insert; [done|]. by rewrite assign_length. }
    rewrite H1. simpl.
    destruct (IH t1) as (t' & H' & Hlen' & Hrows'); try done.
    + intros iz' ?. apply Hl. by right.
    + unfold len_zs in *. lia.
    + exists t'. split; [done|]. split; [congruence | done].
Qed.

(** The iterations all return when every row has one entry per state
    variable, some state variable is MA-masked if [q > 0], and the filter's
    mean always has a first coordinate. *)
Lemma loop_completes (q : Z) state_vars (l : list Z) st :
  ((q > 0)%Z → true ∈ ma_bool_mask state_vars) →
  (∀ kf' : KF, x kf' ≠ []) →
  (∀ i, i ∈ l → (0 ≤ i)%Z) → z st < length (tensor st) →
  Forall (λ row, length row = length state_vars) (tensor st) →
  ∃ st', for_each (loop_body q state_vars) l st = Ok st'.
Proof.
  intros Hma Hx. revert st.
  induction l as [|i l IH]; intros st Hl Hz Hst; simpl; [eauto|].
  assert (0 ≤ i)%Z as Hi by (apply Hl; by left).
  assert (∃ st1, loop_body q state_vars i st = Ok st1
                 ∧ Forall (λ row, length row = length state_vars)
                     (tensor st1)) as (st1 & H1 & Hst1).
  { unfold loop_body.
    destruct (read_row_in_bounds _ _ Hz) as [obs ->]. simpl.
    assert (∃ t', ma_injection q i state_vars
                    (update (predict (kfilter st)) obs) (tensor st) = Ok t'
                  ∧ Forall (λ row, length row = length state_vars) t')
      as (t' & -> & Ht').
    { unfold ma_injection.
      case_bool_decide as Hq; [|eauto].
      case_bool_decide as Hlen; [|eauto].
      unfold ma_residual.
      assert (zs_index (tensor st) (i + 1) = Ok (S (Z.to_nat (i + 1))))
        as ->.
      { apply zs_index_Ok. split; [lia | done]. }
      simpl.
      destruct (read_row_in_bounds (tensor st) (S (Z.to_nat (i + 1))))
        as [row1 Hrow1].
      { unfold len_zs in Hlen. lia. }
      rewrite Hrow1. simpl. apply read_row_Ok in Hrow1.
      assert (length row1 = length state_vars) as Hrl.
      { rewrite Forall_forall in Hst. apply Hst.
        by eapply list_elem_of_lookup_2. }
      unfold mask_get.
      rewrite mask_fits_same_length
        by (unfold ma_bool_mask; by rewrite length_fmap).
      simpl.
      destruct (select (ma_bool_mask state_vars) row1) as [|a sel] eqn:Hsel.
      { exfalso. apply list_elem_of_lookup in Hma as [j Hj]; [|done].
        apply (select_nonempty _ row1 j Hj); [|done].
        apply lookup_lt_Some in Hj. unfold ma_bool_mask in Hj.
        rewrite length_fmap in Hj. lia. }
      simpl.
      destruct (x (update (predict (kfilter st)) obs)) as [|b xs] eqn:Hxs.
      { by apply Hx in Hxs. }
      simpl.
      destruct (ma_writes_total q i state_vars (sub a b) (range 0 q)
                  (tensor st)) as (t' & -> & _ & Ht'); try done; try lia.
      - intros iz Hiz%range_elem. lia.
      - eauto. }
    simpl. rewrite next_z_spec by done. simpl. eauto. }
  rewrite H1. simpl. apply IH; [intros j ?; apply Hl; by right| |done].
  by apply (loop_body_keeps q i state_vars st st1).
Qed.

(** The loop's own indexing raises nothing when the tensor is not empty,
    every row has one entry per state variable, some state variable is
    MA-masked if [q > 0], and the filter's mean always has a first
    coordinate: [zs[0]], the masked reads and writes of lines 130-132 and
    [zs[i + 1]] all stay in range, so no [IndexError] stops the run. What
    [predict] and [update] may raise on matrices that do not conform is
    outside this statement. *)
Theorem conforming_run_raises_no_index_error (p q d : Z) kf (z0 : list R) zs
    state_vars :
  Forall (λ row, length row = length state_vars) (z0 :: zs) →
  ((q > 0)%Z → true ∈ ma_bool_mask state_vars) →
  (∀ kf' : KF, x kf' ≠ []) →
  ∀ ie, kalman_filter p q d kf (z0 :: zs) state_vars ≠ Raise (IndexError ie).
Proof.
  intros Hrows Hma Hx ie. unfold kalman_filter.
  destruct (loop_completes q state_vars (range 0 (len_zs (z0 :: zs) + 1))
              (initial_state kf (z0 :: zs)) Hma Hx) as [st1 ->].
  - intros i Hi%range_elem. lia.
  - apply initial_state_view.
  - done.
  - simpl. discriminate.
Qed.

(** ** What the run leaves untouched *)

Lemma ma_frame_refl (q : Z) state_vars t : ma_frame q state_vars t t.
Proof. repeat split. intros r row Hr. exists row. done. Qed.

Lemma ma_frame_trans (q : Z) state_vars t1 t2 t3 :
  ma_frame q state_vars t1 t2 → ma_frame q state_vars t2 t3 →
  ma_frame q state_vars t1 t3.
Proof.
  intros (Hl12 & H0 & H1 & H12) (Hl23 & H0' & H1' & H23).
  split; [congruence|]. split; [congruence|]. split; [congruence|].
  intros r row Hr.
  destruct (H12 r row Hr) as (row2 & Hr2 & Hlen2 & Hj2).
  destruct (H23 r row2 Hr2) as (row3 & Hr3 & Hlen3 & Hj3).
  exists row3. split; [done|]. split; [congruence|].
  intros j Hj. rewrite Hj3, Hj2 by done. done.
Qed.

Lemma ma_write_frame (q i iz : Z) state_vars (residual : R) t t' :
  (0 ≤ iz < q)%Z → (0 ≤ i)%Z →
  ma_write q i state_vars residual iz t = Ok t' → ma_frame q state_vars t t'.
Proof.
  intros Hiz Hi (row0 & Hb & Hrow0 & Hfit & ->)%ma_write_Ok; [|done].
  assert (∃ r0, S (Z.to_nat (i + iz + 1)) = S (S r0)) as [r0 Hr0].
  { exists (Z.to_nat (i + iz)). lia. }
  rewrite Hr0 in *.
  split; [apply length_insert|].
  split; [by apply list_lookup_insert_ne|].
  split; [by apply list_lookup_insert_ne|].
  intros r row Hr. destruct (decide (r = S (S r0))) as [->|Hne].
  - assert (row = row0) as -> by congruence.
    eexists. split; [apply list_lookup_insert_eq; by eapply lookup_lt_Some|].
    split; [apply assign_length|].
    intros j Hj. apply assign_lookup_other. rewrite list_lookup_fmap.
    destruct (state_vars !! j) as [name|] eqn:Hname; simpl; [|done].
    intros [= Heq%bool_decide_eq_true]. subst name.
    apply (Hj (iz + 1)%Z); [lia | done].
  - exists row. split; [by rewrite list_lookup_insert_ne|]. done.
Qed.

Lemma ma_injection_frame (q i : Z) state_vars kf t t' :
  (0 ≤ i)%Z →
  ma_injection q i state_vars kf t = Ok t' → ma_frame q state_vars t t'.
Proof.
  intros Hi. unfold ma_injection.
  case_bool_decide as Hq; [|intros [= <-]; apply ma_frame_refl].
  case_bool_decide as Hlen; [|intros [= <-]; apply ma_frame_refl].
  intros (residual & _ & H)%bind_Ok. revert H.
  apply (for_each_invariant (ma_frame q state_vars t));
    [|apply ma_frame_refl].
  intros iz u u' Hiz%range_elem Hu Hw.
  eapply ma_frame_trans; [exact Hu|].
  eapply ma_write_frame; [| |exact Hw]; lia.
Qed.

Lemma loop_frame (q : Z) state_vars (l : list Z) st st' :
  (∀ i, i ∈ l → (0 ≤ i)%Z) →
  for_each (loop_body q state_vars) l st = Ok st' →
  ma_frame q state_vars (tensor st) (tensor st').
Proof.
  intros Hl.
  apply (for_each_invariant (λ u, ma_frame q state_vars (tensor st)
                                    (tensor u))); [|apply ma_frame_refl].
  intros i u u' Hi%Hl Hu Hb.
  apply loop_body_Ok in Hb as (obs & _ & _ & Hinj & _); [|done].
  eapply ma_frame_trans; [exact Hu|].
  by eapply ma_injection_frame.
Qed.

(** Whatever [q], a completed run keeps the shape of the caller's tensor,
    leaves its rows 0 and 1 as they were, and changes no entry in a column
    whose state variable is not one of [ma.L1..ma.Lq]. *)
Theorem run_writes_only_ma_slots (p q d : Z) kf (zs : list (list R))
    state_vars st :
  kalman_filter p q d kf zs state_vars = Ok st →
  length (tensor st) = length zs ∧
  tensor st !! 0 = zs !! 0 ∧ tensor st !! 1 = zs !! 1 ∧
  ∀ (r : nat) row, zs !! r = Some row →
    ∃ row', tensor st !! r = Some row' ∧ length row' = length row ∧
      ∀ j : nat,
        (∀ k, (1 ≤ k ≤ q)%Z → state_vars !! j ≠ Some (ma_name k)) →
        row' !! j = row !! j.
Proof.
  intros (Hzs & st1 & Hloop & ->)%kalman_filter_Ok.
  apply loop_frame in Hloop; [exact Hloop|].
  intros i Hi%range_elem. lia.
Qed.

(** ** Tensors of one or two rows *)



(** ** The outputs as a plain recursion *)

Lemma range_cons (a b : Z) : (a < b)%Z → range a b = a :: range (a + 1) b.
Proof.
  intros H. unfold range. rewrite seqZ_cons by lia.
  f_equal. f_equal; lia.
Qed.

(** Iterations from step [a] on write rows after row [a + 1] only. *)
Lemma loop_keeps_low_rows (q : Z) state_vars (a : nat) (l : list Z) st st' :
  (∀ i, i ∈ l → (Z.of_nat a ≤ i)%Z) →
  for_each (loop_body q state_vars) l st = Ok st' →
  ∀ r : nat, r ≤ a + 1 → tensor st' !! r = tensor st !! r.
Proof.
  intros Hl.
  apply (for_each_invariant
           (λ u, ∀ r : nat, r ≤ a + 1 → tensor u !! r = tensor st !! r));
    [|done].
  intros i u u' Hi%Hl Hu Hb r Hr. rewrite <- (Hu r Hr).
  apply loop_body_Ok in Hb as (obs & _ & _ & Hinj & _); [|lia].
  revert Hinj. unfold ma_injection.
  case_bool_decide as Hq; [|by intros [= <-]].
  case_bool_decide as Hlen; [|by intros [= <-]].
  intros (residual & _ & Hw)%bind_Ok. revert Hw.
  apply (for_each_invariant (λ t, t !! r = tensor u !! r)); [|done].
  intros iz t t' Hiz%range_elem Ht Hw.
  apply ma_write_Ok in Hw as (row & _ & _ & _ & ->); [|lia].
  rewrite list_lookup_insert_ne by lia. done.
Qed.

Lemma loop_trace (q : Z) state_vars (n a : nat) st st' :
  z st ≤ a + 1 →
  for_each (loop_body q state_vars)
    (range (Z.of_nat a) (Z.of_nat (a + n))) st = Ok st' →
  ∃ rows observed,
    updates st' = updates st ++ rows ∧
    Forall2 (λ r obs, tensor st' !! r = Some obs) rows observed ∧
    X_out st' = X_out st
                ++ ((λ s, x s.2) <$> filter_run (kfilter st) observed) ∧
    P_out st' = P_out st
                ++ ((λ s, P s.2) <$> filter_run (kfilter st) observed) ∧
    LL_out st' = LL_out st
                 ++ ((λ s, log_likelihood s.2)
                       <$> filter_run (kfilter st) observed) ∧
    X_pred st' = X_pred st
                 ++ ((λ s, x s.1) <$> filter_run (kfilter st) observed) ∧
    P_pred st' = P_pred st
                 ++ ((λ s, P s.1) <$> filter_run (kfilter st) observed) ∧
    kfilter st'
    = fold_left (λ kf obs, update (predict kf) obs) observed (kfilter st).
Proof.
  revert a st. induction n as [|n IH]; intros a st Hz.
  - rewrite Nat.add_0_r. unfold range. rewrite seqZ_nil by lia. simpl.
    intros [= <-]. exists [], []. simpl. rewrite !app_nil_r.
    repeat split; done || constructor.
  - rewrite range_cons by lia. simpl.
    intros (st1 & H1 & H2)%bind_Ok.
    pose proof H1 as Hbody.
    apply loop_body_Ok in H1
      as (obs & Hobs & Hkf & Hinj & Hz1 & HX & HXp & HP & HPp & HLL & Hu);
      [|lia].
    replace (Z.of_nat a + 1)%Z with (Z.of_nat (S a)) in H2 by lia.
    replace (Z.of_nat (a + S n)) with (Z.of_nat (S a + n)) in H2 by lia.
    pose proof H2 as Hrest.
    apply IH in H2 as (rows & observed & Hu' & Hrows & HX' & HP' & HLL'
                       & HXp' & HPp' & Hkf').
    2: { rewrite Hz1. case_bool_decide; lia. }
    assert (tensor st' !! z st = tensor st1 !! z st) as Elater.
    { apply (loop_keeps_low_rows q state_vars (S a)
               (range (Z.of_nat (S a)) (Z.of_nat (S a + n))) st1 st');
        [|exact Hrest|lia].
      intros i Hi%range_elem. lia. }
    assert (tensor st1 !! z st = tensor st !! z st) as Enow.
    { apply (loop_keeps_low_rows q state_vars a [Z.of_nat a] st st1);
        [| |lia].
      - intros i ->%list_elem_of_singleton. lia.
      - simpl. by rewrite Hbody. }
    assert (tensor st' !! z st = Some obs) as Hobs' by congruence.
    exists (z st :: rows), (obs :: observed). simpl.
    rewrite <- Hkf.
    rewrite Hu', Hu, HX', HX, HP', HP, HLL', HLL, HXp', HXp, HPp', HPp,
      <- !app_assoc. simpl.
    repeat split; try done. by constructor.
Qed.

(** Every update of a completed run is applied to a row as it stands in the
    returned tensor (the rows listed in [updates]), and the five arrays are
    those of the plain predict/update recursion over these rows, followed by
    the final predict. *)
Theorem outputs_follow_plain_recursion (p q d : Z) kf0 (zs : list (list R))
    state_vars st :
  kalman_filter p q d kf0 zs state_vars = Ok st →
  ∃ observed,
    Forall2 (λ r obs, tensor st !! r = Some obs) (updates st) observed ∧
    X_out st = (λ s, x s.2) <$> filter_run kf0 observed ∧
    P_out st = (λ s, P s.2) <$> filter_run kf0 observed ∧
    LL_out st = (λ s, log_likelihood s.2) <$> filter_run kf0 observed ∧
    X_pred st
    = ((λ s, x s.1) <$> filter_run kf0 observed) ++ [x (kfilter st)] ∧
    P_pred st
    = ((λ s, P s.1) <$> filter_run kf0 observed) ++ [P (kfilter st)] ∧
    kfilter st
    = predict (fold_left (λ kf obs, update (predict kf) obs) observed kf0).
Proof.
  intros (Hzs & st1 & Hloop & ->)%kalman_filter_Ok.
  replace (len_zs zs + 1)%Z with (Z.of_nat (0 + length zs)) in Hloop
    by (unfold len_zs; lia).
  apply (loop_trace q state_vars (length zs) 0) in Hloop
    as (rows & observed & Hu & Hrows & HX & HP & HLL & HXp & HPp & Hkf);
    [|simpl; lia].
  simpl in *. exists observed. subst rows.
  rewrite HX, HP, HLL, HXp, HPp, Hkf. done.
Qed.
End FilterFacts.

(** ** Construction: validation and the observation tensor *)

Section SetUpFacts.
Context {R : Type} `{!Scalar R}.
Implicit Types (df : frame R) (arima_params : list (string * R)).

Lemma dict_comprehension_Raise arima_params (keys : list string) e :
  dict_comprehension arima_params keys = Raise e → e = KeyError.
Proof.
  unfold dict_comprehension. generalize (@nil (string * R)).
  induction keys as [|k keys IH]; intros acc; simpl; [done|].
  intros [H|(acc' & _ & H)]%bind_Raise; [|by eapply IH].
  apply bind_Raise in H as [H|(v & _ & [=])].
  clear -H. induction arima_params as [|[k' v'] d IH]; simpl in H.
  - by injection H as <-.
  - destruct (decide (k' = k)); [done | auto].
Qed.

Lemma np_append_Raise (A B : matrix R) e :
  np_append A B = Raise e → e = ValueError.
Proof.
  unfold np_append. destruct B; [by intros [= <-]|].
  case_bool_decide; [done | by intros [= <-]].
Qed.

Lemma transition_matrix_Raise (p q d : Z) (coefficients : list R)
    (state_vars exos : list string) e :
  transition_matrix p q d coefficients state_vars exos = Raise e →
  e = ValueError.
Proof.
  unfold transition_matrix.
  intros [H|(T1 & _ & [H|(T2 & _ & H)]%bind_Raise)]%bind_Raise;
    repeat case_bool_decide; try done; by eapply np_append_Raise.
Qed.

Lemma observation_tensor_Raise (q n : Z) df (mask : list bool) e :
  observation_tensor q n df mask = Raise e →
  e = ValueError ∨ e = IndexError BooleanMismatch.
Proof.
  unfold observation_tensor.
  case_bool_decide; [|intros [= <-]; by left].
  destruct (mask_fits _ _); [|intros [= <-]; by right].
  case_bool_decide; [done | intros [= <-]; by left].
Qed.

Lemma observation_tensor_Ok (q n : Z) df (mask : list bool) zs :
  observation_tensor q n df mask = Ok zs →
  (Z.of_nat (length (values df)) * Z.of_nat (columns df)
   = Z.of_nat (length (values df)) * n * 1)%Z ∧
  mask_fits mask (Z.to_nat n) = true ∧
  zs = assign mask zero <$> values df.
Proof.
  unfold observation_tensor.
  case_bool_decide; [|done].
  destruct (mask_fits _ _); [|done].
  case_bool_decide; [|done]. by intros [= <-].
Qed.

(** The four assertions, in source order, then the construction. *)
Lemma set_up_unfold (p q d : Z) df arima_params (endog exog : list string) :
  set_up_kalman_filter p q d df arima_params endog exog
  = if bool_decide (length endog = 1
                    ∧ Z.of_nat (length (ar_params arima_params.*1)) = p
                    ∧ Z.of_nat (length (ma_parmas arima_params.*1)) = q
                    ∧ Z.of_nat (length (exo_params exog arima_params.*1)) = d)
    then
      let state_vars := ar_params arima_params.*1
                        ++ ma_parmas arima_params.*1
                        ++ exo_params exog arima_params.*1 in
      reordered ← dict_comprehension arima_params state_vars;
      T ← transition_matrix p q d (reordered.*2) state_vars
            (exo_params exog arima_params.*1);
      zs ← observation_tensor q (p + q + d) df (ma_bool_mask state_vars);
      Ok {| su_T := T; su_zs := zs; su_state_vars := state_vars |}
    else Raise AssertionError.
Proof.
  unfold set_up_kalman_filter, assert.
  repeat case_bool_decide; simpl; try done; exfalso; tauto.
Qed.

Lemma set_up_Ok (p q d : Z) df arima_params (endog exog : list string) out :
  set_up_kalman_filter p q d df arima_params endog exog = Ok out →
  length endog = 1 ∧
  Z.of_nat (length (ar_params arima_params.*1)) = p ∧
  Z.of_nat (length (ma_parmas arima_params.*1)) = q ∧
  Z.of_nat (length (exo_params exog arima_params.*1)) = d ∧
  su_state_vars out = ar_params arima_params.*1 ++ ma_parmas arima_params.*1
                      ++ exo_params exog arima_params.*1 ∧
  (∃ reordered,
     dict_comprehension arima_params (su_state_vars out) = Ok reordered ∧
     transition_matrix p q d (reordered.*2) (su_state_vars out)
       (exo_params exog arima_params.*1) = Ok (su_T out)) ∧
  observation_tensor q (p + q + d) df (ma_bool_mask (su_state_vars out))
  = Ok (su_zs out).
Proof.
  rewrite set_up_unfold. case_bool_decide as Hv; [|done].
  destruct Hv as (? & ? & ? & ?). simpl.
  intros (reordered & Hd & Hrest)%bind_Ok.
  apply bind_Ok in Hrest as (T & HT & Hrest).
  apply bind_Ok in Hrest as (zs & Hzs & [= <-]). simpl.
  repeat (split; [done|]). split; [eauto | done].
Qed.

Lemma state_vars_length (p q d : Z) df arima_params (endog exog : list string)
    out :
  set_up_kalman_filter p q d df arima_params endog exog = Ok out →
  Z.of_nat (length (su_state_vars out)) = (p + q + d)%Z.
Proof.
  intros (_ & Hp & Hq & Hd & -> & _)%set_up_Ok.
  rewrite !length_app. lia.
Qed.

(** C8. When the construction returns, [zs] has one row per row of the
    trimmed table, every row has [no_params = p + q + d] entries (the third
    axis has size 1), and every entry under the MA mask is 0. *)
Theorem zs_shape_and_zero_ma (p q d : Z) df arima_params
    (endog exog : list string) out :
  frame_wf df →
  set_up_kalman_filter p q d df arima_params endog exog = Ok out →
  length (su_zs out) = length (values df) ∧
  Forall (λ row, Z.of_nat (length row) = (p + q + d)%Z) (su_zs out) ∧
  ∀ row (j : nat),
    row ∈ su_zs out →
    ma_bool_mask (su_state_vars out) !! j = Some true →
    row !! j = Some zero.
Proof.
  intros Hwf Hout.
  pose proof (state_vars_length _ _ _ _ _ _ _ _ Hout) as Hlen.
  apply set_up_Ok in Hout as (_ & _ & _ & _ & _ & _ & Hzs).
  apply observation_tensor_Ok in Hzs as (Hsize & Hfit & ->).
  assert (∀ row, row ∈ values df → Z.of_nat (length row) = (p + q + d)%Z)
    as Hrow.
  { intros row Hin. unfold frame_wf in Hwf. rewrite Forall_forall in Hwf.
    rewrite (Hwf row Hin).
    assert (length (values df) ≠ 0).
    { destruct (values df); [by apply elem_of_nil in Hin | done]. }
    nia. }
  split; [by rewrite length_fmap|]. split.
  - apply Forall_fmap, Forall_forall. intros row Hin. simpl.
    rewrite assign_length. by apply Hrow.
  - intros row' j (row & -> & Hin)%list_elem_of_fmap Hj.
    apply assign_lookup_true; [done|].
    apply lookup_lt_Some in Hj. unfold ma_bool_mask in Hj.
    rewrite length_fmap in Hj. specialize (Hrow row Hin). lia.
Qed.

(** C10 (amended). The construction raises [AssertionError] exactly when the
    number of endogenous variables is not one or a counted group of
    parameter names differs from [p], [q] or [d]. The condition does not
    mention the data table: the assertions come before any matrix, and the
    later stages raise other errors only. *)
Theorem assertion_error_iff (p q d : Z) df arima_params
    (endog exog : list string) :
  set_up_kalman_filter p q d df arima_params endog exog = Raise AssertionError
  ↔ length endog ≠ 1
    ∨ Z.of_nat (length (ar_params arima_params.*1)) ≠ p
    ∨ Z.of_nat (length (ma_parmas arima_params.*1)) ≠ q
    ∨ Z.of_nat (length (exo_params exog arima_params.*1)) ≠ d.
Proof.
  rewrite set_up_unfold. case_bool_decide as Hv; simpl.
  - split; [|tauto]. intros H. exfalso.
    apply bind_Raise in H as [H|(reordered & _ & H)].
    { by apply dict_comprehension_Raise in H. }
    apply bind_Raise in H as [H|(T & _ & H)].
    { by apply transition_matrix_Raise in H. }
    apply bind_Raise in H as [H|(zs & _ & [=])].
    by apply observation_tensor_Raise in H as [H|H].
  - split; [intros _|done].
    destruct (decide (length endog = 1)); [|by left].
    destruct (decide (Z.of_nat (length (ar_params arima_params.*1)) = p));
      [|right; by left].
    destruct (decide (Z.of_nat (length (ma_parmas arima_params.*1)) = q));
      [|right; right; by left].
    right; right; right. intros Hd. by apply Hv.
Qed.
End SetUpFacts.

(** ** Parameter names *)

Lemma pretty_N_char_digit (n : N) : pretty_N_char n ∈ digit_chars.
Proof.
  unfold pretty_N_char, digit_chars.
  repeat case_match; rewrite !elem_of_cons; tauto.
Qed.

Lemma pretty_N_go_digits (n : N) (s : string) :
  all_digits s → all_digits (pretty_N_go n s).
Proof.
  revert s. induction (N.lt_wf_0 n) as [n _ IH]; intros s Hs.
  destruct (decide (n = 0)%N) as [->|Hn]; [by rewrite pretty_N_go_0|].
  rewrite pretty_N_go_step by lia.
  apply IH; [apply N.div_lt; lia|].
  split; [apply pretty_N_char_digit | done].
Qed.

Lemma pretty_Z_digits (i : Z) : (0 ≤ i)%Z → all_digits (pretty i).
Proof.
  destruct i as [|n|n]; [| |lia]; intros _.
  - simpl. unfold digit_chars. rewrite !elem_of_cons. tauto.
  - unfold pretty, pretty_Z, pretty, pretty_positive, pretty, pretty_N.
    rewrite decide_False by done. by apply pretty_N_go_digits.
Qed.

(** A pattern that starts with a letter does not occur among digits. *)
Lemma contains_digits (c : ascii) (pat s : string) :
  c ∉ digit_chars → all_digits s → contains (String c pat) s = false.
Proof.
  intros Hc. induction s as [|c' s IH]; [done|].
  intros [Hc' Hs]. simpl.
  destruct (ascii_dec c c') as [->|_]; [done|]. by apply IH.
Qed.

Lemma prefix_shorter (p1 p2 s : string) :
  String.prefix (p1 +:+ p2) s = true → String.prefix p1 s = true.
Proof.
  revert s; induction p1 as [|c p1 IH]; intros s.
  - by destruct s.
  - change (String c p1 +:+ p2) with (String c (p1 +:+ p2)).
    destruct s as [|c' s]; simpl; [done|].
    destruct (ascii_dec c c'); [apply IH | done].
Qed.

Lemma contains_shorter (p1 p2 s : string) :
  contains (p1 +:+ p2) s = true → contains p1 s = true.
Proof.
  induction s as [|c s IH].
  - unfold contains. rewrite !orb_false_r. apply prefix_shorter.
  - change (contains ?p (String c s))
      with (String.prefix p (String c s) || contains p s).
    intros [H|H]%orb_true_iff; apply orb_true_iff.
    + left. by eapply prefix_shorter.
    + right. by apply IH.
Qed.

Lemma letter_a_not_digit : "a"%char ∉ digit_chars.
Proof.
  unfold digit_chars. rewrite !elem_of_cons, elem_of_nil.
  intros H. decompose [or] H; done.
Qed.

Lemma letter_m_not_digit : "m"%char ∉ digit_chars.
Proof.
  unfold digit_chars. rewrite !elem_of_cons, elem_of_nil.
  intros H. decompose [or] H; done.
Qed.

Lemma prefix_nil (s : string) : String.prefix "" s = true.
Proof. by destruct s. Qed.

Lemma ar_name_has_ar (i : Z) :
  contains "ar." (ar_name i) = true ∧ contains "ar.L" (ar_name i) = true.
Proof.
  unfold ar_name. simpl. rewrite prefix_nil. split; [done|].
  destruct (pretty i); done.
Qed.

Lemma ma_name_has_ma (i : Z) :
  contains "ma." (ma_name i) = true ∧ contains "ma.L" (ma_name i) = true.
Proof.
  unfold ma_name. simpl. rewrite prefix_nil. split; [done|].
  destruct (pretty i); done.
Qed.

Lemma ar_name_no_ma (i : Z) :
  (0 ≤ i)%Z →
  contains "ma." (ar_name i) = false ∧ contains "ma.L" (ar_name i) = false.
Proof.
  intros Hi%pretty_Z_digits. unfold ar_name. simpl.
  by rewrite !contains_digits by (done || apply letter_m_not_digit).
Qed.

Lemma ma_name_no_ar (i : Z) :
  (0 ≤ i)%Z →
  contains "ar." (ma_name i) = false ∧ contains "ar.L" (ma_name i) = false.
Proof.
  intros Hi%pretty_Z_digits. unfold ma_name. simpl.
  by rewrite !contains_digits by (done || apply letter_a_not_digit).
Qed.

Lemma marker_free_masks (s : string) :
  marker_free s → contains "ar.L" s = false ∧ contains "ma.L" s = false.
Proof.
  intros [Har Hma]. split.
  - destruct (contains "ar.L" s) eqn:H; [|done].
    apply (contains_shorter "ar." "L") in H. congruence.
  - destruct (contains "ma.L" s) eqn:H; [|done].
    apply (contains_shorter "ma." "L") in H. congruence.
Qed.

Lemma ar_name_inj : Inj (=) (=) ar_name.
Proof. intros i j H. unfold ar_name in H. by simplify_eq/=. Qed.

Lemma ma_name_inj : Inj (=) (=) ma_name.
Proof. intros i j H. unfold ma_name in H. by simplify_eq/=. Qed.


Lemma marker_free_not_lag (s : string) (i : Z) :
  marker_free s → s ≠ ar_name i ∧ s ≠ ma_name i.
Proof.
  intros [Har Hma]. split; intros ->.
  - destruct (ar_name_has_ar i). congruence.
  - destruct (ma_name_has_ma i). congruence.
Qed.

Lemma ar_name_not_ma_name (i j : Z) : ar_name i ≠ ma_name j.
Proof. unfold ar_name, ma_name. simpl. discriminate. Qed.

Lemma filter_keeps_all {A} (P : A → Prop) `{∀ a, Decision (P a)}
    (l : list A) :
  Forall P l → filter P l = l.
Proof.
  induction 1 as [|a l Ha Hl IH]; [done|].
  by rewrite filter_cons_True, IH.
Qed.

Lemma filter_keeps_none {A} (P : A → Prop) `{∀ a, Decision (P a)}
    (l : list A) :
  Forall (λ a, ¬ P a) l → filter P l = [].
Proof.
  induction 1 as [|a l Ha Hl IH]; [done|].
  by rewrite filter_cons_False, IH.
Qed.

Lemma ar_names_all_ar (a b : Z) :
  (0 ≤ a)%Z →
  Forall (λ s, contains "ar." s) (ar_name <$> range a b) ∧
  Forall (λ s, ¬ contains "ma." s) (ar_name <$> range a b) ∧
  Forall (λ s, ∀ exog, Forall marker_free exog → s ∉ exog)
         (ar_name <$> range a b).
Proof.
  intros Ha. rewrite !Forall_fmap, !Forall_forall.
  split; [|split]; intros i Hi%range_elem; unfold compose.
  - destruct (ar_name_has_ar i) as [-> _]. done.
  - destruct (ar_name_no_ma i) as [-> _]; [lia|]. by intros [].
  - intros exog Hex Hin. rewrite Forall_forall in Hex.
    by destruct (marker_free_not_lag _ i (Hex _ Hin)).
Qed.

Lemma ma_names_all_ma (a b : Z) :
  (0 ≤ a)%Z →
  Forall (λ s, contains "ma." s) (ma_name <$> range a b) ∧
  Forall (λ s, ¬ contains "ar." s) (ma_name <$> range a b) ∧
  Forall (λ s, ∀ exog, Forall marker_free exog → s ∉ exog)
         (ma_name <$> range a b).
Proof.
  intros Ha. rewrite !Forall_fmap, !Forall_forall.
  split; [|split]; intros i Hi%range_elem; unfold compose.
  - destruct (ma_name_has_ma i) as [-> _]. done.
  - destruct (ma_name_no_ar i) as [-> _]; [lia|]. by intros [].
  - intros exog Hex Hin. rewrite Forall_forall in Hex.
    by destruct (marker_free_not_lag _ i (Hex _ Hin)).
Qed.

Lemma marker_free_filtered (l : list string) :
  Forall marker_free l →
  Forall (λ s, ¬ contains "ar." s) l ∧ Forall (λ s, ¬ contains "ma." s) l.
Proof.
  intros Hl. split; (eapply Forall_impl; [exact Hl|]);
    intros s [Har Hma]; simpl.
  - rewrite Har. by intros [].
  - rewrite Hma. by intros [].
Qed.

(** On fitted names the three filters return the AR lags in order, the MA
    lags in order, and names of exogenous columns; no name is taken twice. *)
Lemma fitted_groups (p q : Z) (exog names : list string) :
  fitted_names p q exog names →
  ar_params names = ar_name <$> range 1 (p + 1) ∧
  ma_parmas names = ma_name <$> range 1 (q + 1) ∧
  Forall (λ s, s ∈ exog ∧ marker_free s) (exo_params exog names) ∧
  NoDup (ar_params names ++ ma_parmas names ++ exo_params exog names).
Proof.
  intros (Hnd & Hexog & l0 & l1 & l2 & -> & Hfree).
  apply Forall_app in Hfree as [H0 Hfree].
  apply Forall_app in Hfree as [H1 H2].
  destruct (ar_names_all_ar 1 (p + 1)) as (Haa & Ham & Hax); [lia|].
  destruct (ma_names_all_ma 1 (q + 1)) as (Hmm & Hma & Hmx); [lia|].
  destruct (marker_free_filtered _ H0) as [H0a H0m].
  destruct (marker_free_filtered _ H1) as [H1a H1m].
  destruct (marker_free_filtered _ H2) as [H2a H2m].
  assert (ar_params (l0 ++ (ar_name <$> range 1 (p + 1)) ++ l1
                     ++ (ma_name <$> range 1 (q + 1)) ++ l2)
          = ar_name <$> range 1 (p + 1)) as Har.
  { unfold ar_params. rewrite !filter_app.
    rewrite (filter_keeps_none _ l0), (filter_keeps_none _ l1),
      (filter_keeps_none _ l2), (filter_keeps_none _ (ma_name <$> _)),
      (filter_keeps_all _ (ar_name <$> _)) by done.
    by rewrite !app_nil_r. }
  assert (ma_parmas (l0 ++ (ar_name <$> range 1 (p + 1)) ++ l1
                     ++ (ma_name <$> range 1 (q + 1)) ++ l2)
          = ma_name <$> range 1 (q + 1)) as Hma'.
  { unfold ma_parmas. rewrite !filter_app.
    rewrite (filter_keeps_none _ l0), (filter_keeps_none _ l1),
      (filter_keeps_none _ l2), (filter_keeps_none _ (ar_name <$> _)),
      (filter_keeps_all _ (ma_name <$> _)) by done.
    by rewrite !app_nil_r. }
  assert (Forall (λ s, s ∈ exog ∧ marker_free s)
            (exo_params exog (l0 ++ (ar_name <$> range 1 (p + 1)) ++ l1
                              ++ (ma_name <$> range 1 (q + 1)) ++ l2)))
    as Hexo.
  { apply Forall_forall. intros s [Hin _]%list_elem_of_filter.
    rewrite Forall_forall in Hexog. auto. }
  rewrite Har, Hma'. repeat (split; [done|]).
  rewrite Forall_forall in Hexo.
  apply NoDup_app. split; [|split].
  - apply NoDup_fmap_2; [exact ar_name_inj | apply NoDup_seqZ].
  - intros s (i & -> & Hi)%list_elem_of_fmap
      [(j & Heq & _)%list_elem_of_fmap | Hin]%elem_of_app.
    + by apply ar_name_not_ma_name in Heq.
    + destruct (Hexo _ Hin) as [_ Hs].
      by destruct (marker_free_not_lag _ i Hs).
  - apply NoDup_app. split; [|split].
    + apply NoDup_fmap_2; [exact ma_name_inj | apply NoDup_seqZ].
    + intros s (i & -> & Hi)%list_elem_of_fmap Hin.
      destruct (Hexo _ Hin) as [_ Hs].
      by destruct (marker_free_not_lag _ i Hs).
    + by apply NoDup_filter.
Qed.

Lemma fitted_lag_ordered (p q : Z) (exog names : list string) :
  fitted_names p q exog names → lag_ordered p q exog names.
Proof.
  intros Hfit.
  destruct (fitted_groups _ _ _ _ Hfit) as (Har & Hma & Hexo & _).
  destruct Hfit as (Hnd & _).
  repeat (split; [done|]).
  eapply Forall_impl; [exact Hexo|]. by intros s [_ Hs].
Qed.

Lemma ordered_groups (p q : Z) (exog names : list string) :
  lag_ordered p q exog names →
  ar_params names = ar_name <$> range 1 (p + 1) ∧
  ma_parmas names = ma_name <$> range 1 (q + 1) ∧
  Forall (λ s, s ∈ exog ∧ marker_free s) (exo_params exog names) ∧
  NoDup (ar_params names ++ ma_parmas names ++ exo_params exog names).
Proof.
  intros (Hnd & Har & Hma & Hfree).
  assert (Forall (λ s, s ∈ exog ∧ marker_free s) (exo_params exog names))
    as Hexo.
  { rewrite Forall_forall in Hfree. apply Forall_forall.
    intros s Hs. split; [|by apply Hfree].
    by apply list_elem_of_filter in Hs as [? _]. }
  repeat (split; [done|]). rewrite Har, Hma.
  rewrite Forall_forall in Hexo.
  apply NoDup_app. split; [|split].
  - apply NoDup_fmap_2; [exact ar_name_inj | apply NoDup_seqZ].
  - intros s (i & -> & Hi)%list_elem_of_fmap
      [(j & Heq & _)%list_elem_of_fmap | Hin]%elem_of_app.
    + by apply ar_name_not_ma_name in Heq.
    + destruct (Hexo _ Hin) as [_ Hs].
      by destruct (marker_free_not_lag _ i Hs).
  - apply NoDup_app. split; [|split].
    + apply NoDup_fmap_2; [exact ma_name_inj | apply NoDup_seqZ].
    + intros s (i & -> & Hi)%list_elem_of_fmap Hin.
      destruct (Hexo _ Hin) as [_ Hs].
      by destruct (marker_free_not_lag _ i Hs).
    + by apply NoDup_filter.
Qed.

(** Under the ordering condition no lag name of the dictionary is an
    exogenous column. *)
Lemma ordered_lags_not_exog (p q : Z) (exog names : list string) (i : Z) :
  lag_ordered p q exog names →
  ((1 ≤ i ≤ p)%Z → ar_name i ∉ exog) ∧ ((1 ≤ i ≤ q)%Z → ma_name i ∉ exog).
Proof.
  intros (_ & Har & Hma & Hfree). rewrite Forall_forall in Hfree.
  split; intros Hi Hin.
  - assert (ar_name i ∈ ar_params names) as Hmem.
    { rewrite Har. apply list_elem_of_fmap. exists i. split; [done|].
      apply range_elem. lia. }
    apply list_elem_of_filter in Hmem as [_ Hmem].
    assert (ar_name i ∈ exo_params exog names) as Hexo
      by (by apply list_elem_of_filter).
    by destruct (marker_free_not_lag _ i (Hfree _ Hexo)).
  - assert (ma_name i ∈ ma_parmas names) as Hmem.
    { rewrite Hma. apply list_elem_of_fmap. exists i. split; [done|].
      apply range_elem. lia. }
    apply list_elem_of_filter in Hmem as [_ Hmem].
    assert (ma_name i ∈ exo_params exog names) as Hexo
      by (by apply list_elem_of_filter).
    by destruct (marker_free_not_lag _ i (Hfree _ Hexo)).
Qed.

(** ** The transition matrix *)

Section TransitionFacts.
Context {R : Type} `{!Scalar R}.
Implicit Types (arima_params : list (string * R)) (state_vars : list string).

Lemma dict_set_fresh (acc : list (string * R)) (k : string) (v : R) :
  k ∉ acc.*1 → dict_set acc k v = acc ++ [(k, v)].
Proof.
  induction acc as [|[k' v'] acc IH]; simpl; [done|].
  intros Hk. apply not_elem_of_cons in Hk as [Hne Hk].
  rewrite decide_False by done. by rewrite IH.
Qed.

(** Rebuilding the dictionary over distinct keys lists them in order, each
    with its value. *)
Lemma dict_comprehension_Ok arima_params (keys : list string) reordered :
  NoDup keys →
  dict_comprehension arima_params keys = Ok reordered →
  reordered.*1 = keys ∧
  Forall2 (λ k v, dict_get arima_params k = Ok v) keys (reordered.*2).
Proof.
  unfold dict_comprehension. intros Hnd.
  enough (∀ acc r,
    (∀ k, k ∈ keys → k ∉ acc.*1) →
    for_each (λ item acc, v ← dict_get arima_params item;
                           Ok (dict_set acc item v)) keys acc = Ok r →
    ∃ l, r = acc ++ l ∧ l.*1 = keys
         ∧ Forall2 (λ k v, dict_get arima_params k = Ok v) keys (l.*2))
    as Hgen.
  { intros H. apply Hgen in H as (l & -> & H1 & H2); [done|].
    intros k _. apply not_elem_of_nil. }
  induction Hnd as [|k keys Hk Hnd IH]; intros acc r Hacc; simpl.
  - intros [= <-]. exists []. by rewrite app_nil_r.
  - intros (acc1 & H1 & H2)%bind_Ok.
    apply bind_Ok in H1 as (v & Hv & [= <-]).
    rewrite dict_set_fresh in H2 by (apply Hacc; by left).
    apply IH in H2 as (l & -> & Hl1 & Hl2).
    + exists ((k, v) :: l). rewrite <- app_assoc. simpl.
      repeat split; [by f_equal | by constructor].
    + intros k' Hk'. rewrite fmap_app. simpl.
      intros [Hin | ->%list_elem_of_singleton]%elem_of_app; [|done].
      revert Hin. apply Hacc. by right.
Qed.

Lemma np_append_Ok (A B C : matrix R) :
  np_append A B = Ok C → C = A ++ B.
Proof.
  unfold np_append. destruct B; [done|].
  case_bool_decide; [by intros [= <-] | done].
Qed.

Lemma ar_T_length (p : Z) state_vars :
  length (ar_T (R := R) p state_vars) = Z.to_nat (p - 1).
Proof. unfold ar_T. by rewrite length_fmap, range_length. Qed.

Lemma ma_T_length (q : Z) state_vars :
  length (ma_T (R := R) q state_vars) = Z.to_nat q.
Proof.
  unfold ma_T. rewrite length_fmap, range_length. f_equal. lia.
Qed.

Lemma exo_T_length (exos state_vars : list string) :
  length (exo_T (R := R) exos state_vars) = length exos.
Proof. unfold exo_T. by rewrite length_fmap. Qed.

(** Whatever the guards, a returned matrix is the coefficient row followed
    by the three blocks: a block whose guard fails is empty. *)
Lemma transition_matrix_Ok (p q d : Z) (coefficients : list R) state_vars
    (exos : list string) (T : matrix R) :
  Z.of_nat (length exos) = d →
  transition_matrix p q d coefficients state_vars exos = Ok T →
  T = coefficients :: ar_T p state_vars ++ ma_T q state_vars
                      ++ exo_T exos state_vars.
Proof.
  intros Hd. unfold transition_matrix.
  intros (T1 & H1 & H2)%bind_Ok.
  apply bind_Ok in H2 as (T2 & H2 & H3).
  assert (T1 = [coefficients] ++ ar_T p state_vars) as ->.
  { clear H2 H3. revert H1. case_bool_decide; [apply np_append_Ok|].
    intros [= <-]. unfold ar_T, range.
    rewrite seqZ_nil by lia. done. }
  assert (T2 = ([coefficients] ++ ar_T p state_vars) ++ ma_T q state_vars)
    as ->.
  { clear H1 H3. revert H2. case_bool_decide; [apply np_append_Ok|].
    intros [= <-]. unfold ma_T, range.
    rewrite seqZ_nil by lia. by rewrite app_nil_r. }
  assert (T = (([coefficients] ++ ar_T p state_vars) ++ ma_T q state_vars)
              ++ exo_T exos state_vars) as ->.
  { clear H1 H2. revert H3. case_bool_decide; [apply np_append_Ok|].
    intros [= <-]. destruct exos; [|simpl in Hd; lia].
    by rewrite app_nil_r. }
  by rewrite <- !app_assoc.
Qed.

Lemma onehot_length (n c : nat) : length (onehot (R := R) n c) = n.
Proof. unfold onehot. by rewrite length_fmap, length_seq. Qed.

Lemma onehot_lookup (n c j : nat) :
  j < n → onehot (R := R) n c !! j = Some (if decide (j = c) then one else zero).
Proof.
  intros Hj. unfold onehot.
  rewrite list_lookup_fmap, lookup_seq_lt by done. simpl.
  unfold indicator. case_bool_decide; by destruct (decide (j = c)).
Qed.

(** The indicator row of a name that stands once in the state vector. *)
Lemma indicator_row_onehot state_vars (c : nat) (name : string) :
  NoDup state_vars → state_vars !! c = Some name →
  (λ item, indicator (R := R) (bool_decide (item = name))) <$> state_vars
  = onehot (length state_vars) c.
Proof.
  intros Hnd Hc. apply list_eq. intros j.
  rewrite list_lookup_fmap.
  destruct (state_vars !! j) as [s|] eqn:Hj; simpl.
  - rewrite onehot_lookup by (by eapply lookup_lt_Some).
    f_equal. unfold indicator.
    case_bool_decide as Hs; destruct (decide (j = c)) as [->|Hne]; try done.
    + subst s. destruct Hne. by eapply NoDup_lookup.
    + congruence.
  - symmetry. apply lookup_ge_None. rewrite onehot_length.
    by apply lookup_ge_None.
Qed.

Lemma indicator_row_onehot_sym state_vars (c : nat) (exo : string) :
  NoDup state_vars → state_vars !! c = Some exo →
  (λ name, indicator (R := R) (bool_decide (exo = name))) <$> state_vars
  = onehot (length state_vars) c.
Proof.
  intros Hnd Hc. rewrite <- (indicator_row_onehot _ c exo) by done.
  apply list_fmap_ext. intros _ name _. f_equal.
  apply bool_decide_ext. split; congruence.
Qed.

(** What a successful construction on fitted names returns. *)
Lemma set_up_fitted (p q d : Z) (df : frame R) arima_params
    (endog exog : list string) out :
  fitted_names p q exog arima_params.*1 →
  set_up_kalman_filter p q d df arima_params endog exog = Ok out →
  ∃ exos coefficients,
    (0 ≤ p)%Z ∧ (0 ≤ q)%Z ∧ Z.of_nat (length exos) = d ∧
    su_state_vars out
    = (ar_name <$> range 1 (p + 1)) ++ (ma_name <$> range 1 (q + 1)) ++ exos ∧
    NoDup (su_state_vars out) ∧
    Forall (λ s, s ∈ exog ∧ marker_free s) exos ∧
    Forall2 (λ k v, dict_get arima_params k = Ok v)
            (su_state_vars out) coefficients ∧
    su_T out = coefficients :: ar_T p (su_state_vars out)
                 ++ ma_T q (su_state_vars out)
                 ++ exo_T exos (su_state_vars out).
Proof.
  intros Hfit (_ & Hp & Hq & Hd & Hsv & (reordered & Hdict & HT) & _)%set_up_Ok.
  destruct (fitted_groups _ _ _ _ Hfit) as (Har & Hma & Hexo & Hnd).
  rewrite <- Hsv in Hnd.
  exists (exo_params exog arima_params.*1), (reordered.*2).
  split; [lia|]. split; [lia|]. split; [done|].
  split; [by rewrite Hsv, Har, Hma|]. split; [done|]. split; [done|].
  split.
  - by apply dict_comprehension_Ok in Hdict as [_ ?].
  - by apply transition_matrix_Ok in HT.
Qed.

Lemma set_up_ordered (p q d : Z) (df : frame R) arima_params
    (endog exog : list string) out :
  lag_ordered p q exog arima_params.*1 →
  set_up_kalman_filter p q d df arima_params endog exog = Ok out →
  ∃ exos coefficients,
    (0 ≤ p)%Z ∧ (0 ≤ q)%Z ∧ Z.of_nat (length exos) = d ∧
    su_state_vars out
    = (ar_name <$> range 1 (p + 1)) ++ (ma_name <$> range 1 (q + 1)) ++ exos ∧
    NoDup (su_state_vars out) ∧
    Forall (λ s, s ∈ exog ∧ marker_free s) exos ∧
    Forall2 (λ k v, dict_get arima_params k = Ok v)
            (su_state_vars out) coefficients ∧
    su_T out = coefficients :: ar_T p (su_state_vars out)
                 ++ ma_T q (su_state_vars out)
                 ++ exo_T exos (su_state_vars out).
Proof.
  intros Hord (_ & Hp & Hq & Hd & Hsv & (reordered & Hdict & HT) & _)%set_up_Ok.
  destruct (ordered_groups _ _ _ _ Hord) as (Har & Hma & Hexo & Hnd).
  rewrite <- Hsv in Hnd.
  exists (exo_params exog arima_params.*1), (reordered.*2).
  split; [lia|]. split; [lia|]. split; [done|].
  split; [by rewrite Hsv, Har, Hma|]. split; [done|]. split; [done|].
  split.
  - by apply dict_comprehension_Ok in Hdict as [_ ?].
  - by apply transition_matrix_Ok in HT.
Qed.

Lemma lag_names_length (f : Z → string) (n : Z) :
  length (f <$> range 1 (n + 1)) = Z.to_nat n.
Proof. rewrite length_fmap, range_length. f_equal. lia. Qed.

Lemma lag_names_lookup (f : Z → string) (n i : Z) :
  (1 ≤ i ≤ n)%Z → (f <$> range 1 (n + 1)) !! Z.to_nat (i - 1) = Some (f i).
Proof.
  intros Hi. rewrite list_lookup_fmap, range_lookup by lia. simpl.
  do 2 f_equal. lia.
Qed.

(** Positions of the three groups in a state vector laid out as AR lags, MA
    lags, exogenous names. *)
Lemma layout_lookup (p q : Z) (exos : list string) :
  (0 ≤ p)%Z → (0 ≤ q)%Z →
  let sv := (ar_name <$> range 1 (p + 1)) ++ (ma_name <$> range 1 (q + 1))
            ++ exos in
  (∀ i, (1 ≤ i ≤ p)%Z → sv !! Z.to_nat (i - 1) = Some (ar_name i)) ∧
  (∀ i, (1 ≤ i ≤ q)%Z → sv !! Z.to_nat (p + i - 1) = Some (ma_name i)) ∧
  (∀ m : nat, sv !! (Z.to_nat (p + q) + m) = exos !! m).
Proof.
  intros Hp Hq sv. subst sv. split; [|split].
  - intros i Hi. rewrite lookup_app_l by (rewrite lag_names_length; lia).
    by apply lag_names_lookup.
  - intros i Hi. rewrite lookup_app_r by (rewrite lag_names_length; lia).
    rewrite lag_names_length.
    rewrite lookup_app_l by (rewrite lag_names_length; lia).
    replace (Z.to_nat (p + i - 1) - Z.to_nat p) with (Z.to_nat (i - 1)) by lia.
    by apply lag_names_lookup.
  - intros m. rewrite lookup_app_r by (rewrite lag_names_length; lia).
    rewrite lag_names_length.
    rewrite lookup_app_r by (rewrite lag_names_length; lia).
    rewrite lag_names_length. f_equal. lia.
Qed.

(** The rows of a matrix made of the coefficient row and the three blocks,
    over a state vector laid out as above without repetition: the [p - 1]
    AR rows are one-hot on the column before their own row, the MA and
    exogenous rows (placed from row [p] on when [p ≥ 1]) on the column of
    their own row. *)
Lemma block_rows (p q : Z) (exos : list string) (coefficients : list R) :
  (1 ≤ p)%Z → (0 ≤ q)%Z →
  let sv := (ar_name <$> range 1 (p + 1)) ++ (ma_name <$> range 1 (q + 1))
            ++ exos in
  let T := coefficients :: ar_T p sv ++ ma_T q sv ++ exo_T exos sv in
  NoDup sv →
  length T = length sv ∧
  (∀ k : nat, (1 ≤ Z.of_nat k < p)%Z →
     T !! k = Some (onehot (length sv) (k - 1))) ∧
  (∀ k : nat, (p ≤ Z.of_nat k)%Z → k < length sv →
     T !! k = Some (onehot (length sv) k)).
Proof.
  intros Hp Hq sv T Hnd.
  destruct (layout_lookup p q exos) as (Har & Hma & Hexo); [lia | lia |].
  fold sv in Har, Hma, Hexo.
  assert (length sv = Z.to_nat p + Z.to_nat q + length exos) as Hlen.
  { unfold sv. rewrite !length_app, !lag_names_length. lia. }
  split; [|split].
  - unfold T. simpl. rewrite !length_app, ar_T_length, ma_T_length,
      exo_T_length. lia.
  - intros k Hk. unfold T. destruct k as [|k]; [lia|]. simpl.
    rewrite lookup_app_l by (rewrite ar_T_length; lia).
    unfold ar_T. rewrite list_lookup_fmap, range_lookup by lia. simpl.
    f_equal. rewrite Nat.sub_0_r. apply indicator_row_onehot; [done|].
    specialize (Har (1 + Z.of_nat k)%Z).
    replace (Z.to_nat (1 + Z.of_nat k - 1)) with k in Har by lia.
    apply Har. lia.
  - intros k Hk Hkn. unfold T. destruct k as [|k]; [lia|]. simpl.
    rewrite lookup_app_r by (rewrite ar_T_length; lia).
    rewrite ar_T_length.
    destruct (decide (S k < Z.to_nat p + Z.to_nat q)) as [Hma'|Hexo'].
    + rewrite lookup_app_l by (rewrite ma_T_length; lia).
      unfold ma_T. rewrite list_lookup_fmap, range_lookup by lia. simpl.
      f_equal. apply indicator_row_onehot; [done|].
      specialize (Hma (1 + Z.of_nat (k - Z.to_nat (p - 1)))%Z).
      replace (Z.to_nat (p + (1 + Z.of_nat (k - Z.to_nat (p - 1))) - 1))
        with (S k) in Hma by lia.
      apply Hma. lia.
    + rewrite lookup_app_r by (rewrite ma_T_length; lia).
      rewrite ma_T_length. unfold exo_T. rewrite list_lookup_fmap.
      specialize (Hexo (k - Z.to_nat (p - 1) - Z.to_nat q)).
      replace (Z.to_nat (p + q) + (k - Z.to_nat (p - 1) - Z.to_nat q))
        with (S k) in Hexo by lia.
      destruct (exos !! (k - Z.to_nat (p - 1) - Z.to_nat q)) as [exo|] eqn:He.
      * simpl. f_equal. by apply indicator_row_onehot_sym.
      * apply lookup_ge_None in He. lia.
Qed.

(** Every position of the laid-out state vector holds an AR name, an MA name
    or an exogenous name, according to its block. *)
Lemma layout_classify (p q : Z) (exog exos : list string) (j : nat) :
  (0 ≤ p)%Z → (0 ≤ q)%Z → Forall (λ s, s ∈ exog ∧ marker_free s) exos →
  let sv := (ar_name <$> range 1 (p + 1)) ++ (ma_name <$> range 1 (q + 1))
            ++ exos in
  j < length sv →
  ((Z.of_nat j < p)%Z ∧ sv !! j = Some (ar_name (Z.of_nat j + 1))) ∨
  ((p ≤ Z.of_nat j < p + q)%Z
   ∧ sv !! j = Some (ma_name (Z.of_nat j - p + 1))) ∨
  ((p + q ≤ Z.of_nat j)%Z
   ∧ ∃ s, sv !! j = Some s ∧ s ∈ exog ∧ marker_free s).
Proof.
  intros Hp Hq Hexos sv Hj.
  destruct (layout_lookup p q exos) as (Har & Hma & Hexo); [lia | lia |].
  fold sv in Har, Hma, Hexo.
  assert (length sv = Z.to_nat p + Z.to_nat q + length exos) as Hlen.
  { unfold sv. rewrite !length_app, !lag_names_length. lia. }
  destruct (decide (Z.of_nat j < p)%Z) as [H1|H1].
  { left. split; [done|]. rewrite <- Har by lia. f_equal. lia. }
  destruct (decide (Z.of_nat j < p + q)%Z) as [H2|H2].
  { right; left. split; [lia|]. rewrite <- Hma by lia. f_equal. lia. }
  right; right. split; [lia|].
  specialize (Hexo (j - Z.to_nat (p + q))).
  replace (Z.to_nat (p + q) + (j - Z.to_nat (p + q))) with j in Hexo by lia.
  destruct (exos !! (j - Z.to_nat (p + q))) as [s|] eqn:Hs.
  - exists s. split; [done|]. rewrite Forall_forall in Hexos.
    apply Hexos. by eapply list_elem_of_lookup_2.
  - apply lookup_ge_None in Hs. lia.
Qed.

(** C7 (amended). When the names of the dictionary that carry [ar.] are
    [ar.L1..ar.Lp] in this order, those that carry [ma.] are
    [ma.L1..ma.Lq] in this order, and no exogenous parameter carries a
    marker, the state-variable list has [p + q + d] entries; at every
    position exactly one of the three tests holds: the AR mask on the first
    [p] positions, the MA mask on the next [q], membership in [exog] (the
    test of the exogenous group) on the rest; and the AR and MA names stand
    in increasing lag order, [ar.L1..ar.Lp] then [ma.L1..ma.Lq]. *)
Theorem state_vars_layout (p q d : Z) (df : frame R) arima_params
    (endog exog : list string) out :
  lag_ordered p q exog arima_params.*1 →
  set_up_kalman_filter p q d df arima_params endog exog = Ok out →
  Z.of_nat (length (su_state_vars out)) = (p + q + d)%Z ∧
  (∀ j : nat, j < length (su_state_vars out) →
     ar_bool_mask (su_state_vars out) !! j
     = Some (bool_decide (Z.of_nat j < p)%Z) ∧
     ma_bool_mask (su_state_vars out) !! j
     = Some (bool_decide (p ≤ Z.of_nat j < p + q)%Z) ∧
     ∃ name, su_state_vars out !! j = Some name
             ∧ (name ∈ exog ↔ (p + q ≤ Z.of_nat j)%Z)) ∧
  (∀ i, (1 ≤ i ≤ p)%Z →
     su_state_vars out !! Z.to_nat (i - 1) = Some (ar_name i)) ∧
  (∀ i, (1 ≤ i ≤ q)%Z →
     su_state_vars out !! Z.to_nat (p + i - 1) = Some (ma_name i)).
Proof.
  intros Hord Hout.
  pose proof (state_vars_length _ _ _ _ _ _ _ _ Hout) as Hlen.
  destruct (set_up_ordered _ _ _ _ _ _ _ _ Hord Hout)
    as (exos & coefs & Hp & Hq & Hd & Hsv & Hnd & Hexos & _ & _).
  destruct (layout_lookup p q exos Hp Hq) as (Har & Hma & _).
  rewrite <- Hsv in Har, Hma.
  split; [done|]. split; [|done].
  intros j Hj. rewrite Hsv in Hj.
  destruct (layout_classify p q exog exos j Hp Hq Hexos Hj)
    as [[Hjp Hname]|[[Hjq Hname]|[Hjd (s & Hname & Hin & Hfree)]]];
    rewrite <- Hsv in Hname; unfold ar_bool_mask, ma_bool_mask;
    rewrite !list_lookup_fmap, Hname;
    cbv [fmap option_fmap option_map].
  - destruct (ar_name_has_ar (Z.of_nat j + 1)) as [_ ->].
    destruct (ar_name_no_ma (Z.of_nat j + 1)) as [_ ->]; [lia|].
    rewrite bool_decide_eq_true_2, bool_decide_eq_false_2 by lia.
    repeat split; eauto. eexists. split; [done|]. split; [|lia].
    intros Hin.
    destruct (ordered_lags_not_exog _ _ _ _ (Z.of_nat j + 1) Hord) as [Hno _].
    exfalso. apply Hno; [lia | done].
  - destruct (ma_name_has_ma (Z.of_nat j - p + 1)) as [_ ->].
    destruct (ma_name_no_ar (Z.of_nat j - p + 1)) as [_ ->]; [lia|].
    rewrite bool_decide_eq_false_2, bool_decide_eq_true_2 by lia.
    repeat split; eauto. eexists. split; [done|]. split; [|lia].
    intros Hin.
    destruct (ordered_lags_not_exog _ _ _ _ (Z.of_nat j - p + 1) Hord)
      as [_ Hno].
    exfalso. apply Hno; [lia | done].
  - destruct (marker_free_masks s Hfree) as [-> ->].
    rewrite !bool_decide_eq_false_2 by lia.
    do 2 (split; [done|]). exists s. split; [done|]. split; [lia | done].
Qed.

(** Moving a vector through an indicator row picks one entry. *)
Lemma dot_indicator (c s n : nat) (v : list R) :
  unit_laws (R := R) → length v = n →
  dot ((λ j, indicator (bool_decide (j = c))) <$> seq s n) v
  = (if decide (s ≤ c < s + n) then default zero (v !! (c - s)) else zero).
Proof.
  intros (Hm0 & Hm1 & Ha0 & Ha0') Hlen. revert s v Hlen.
  induction n as [|n IH]; intros s v Hlen.
  - simpl. by rewrite decide_False by lia.
  - destruct v as [|a v]; [done|]. simpl in Hlen.
    unfold dot in *. simpl. rewrite IH by lia.
    unfold indicator. case_bool_decide as Hs.
    + subst s. rewrite Hm1, Nat.sub_diag. simpl.
      rewrite decide_False, decide_True by lia. apply Ha0'.
    + rewrite Hm0, Ha0.
      destruct (decide (S s ≤ c < S s + n)).
      * rewrite decide_True by lia.
        replace (c - s) with (S (c - S s)) by lia. done.
      * by rewrite decide_False by lia.
Qed.

Lemma matvec_onehot (F : matrix R) (v : list R) (k c : nat) (a : R) :
  unit_laws (R := R) → F !! k = Some (onehot (length v) c) →
  v !! c = Some a → matvec F v !! k = Some a.
Proof.
  intros Hlaws Hk Hc. unfold matvec, matrix in *.
  rewrite list_lookup_fmap, Hk. simpl.
  unfold onehot. rewrite dot_indicator by done.
  rewrite decide_True by (apply lookup_lt_Some in Hc; lia).
  by rewrite Nat.sub_0_r, Hc.
Qed.

(** C2 (amended). When the names of the dictionary that carry [ar.] are
    [ar.L1..ar.Lp] in this order, those that carry [ma.] are
    [ma.L1..ma.Lq] in this order, no exogenous parameter carries a marker,
    and [p ≥ 1], the matrix has [no_params] rows. Row [k] for [1 ≤ k < p]
    (the slot of AR lag [k + 1]) is one-hot on column [k - 1] (the slot of
    AR lag [k]): the [p - 1] AR rows shift, and one transition step puts
    the old lag-[k] value into the lag-[k + 1] slot. Every row from [p] on (the [q] MA rows and the [d] exogenous rows)
    is one-hot on its own column: these rows carry, and one transition step
    leaves each MA and exogenous component where it was. *)
Theorem ar_rows_shift_ma_exo_rows_carry (p q d : Z) (df : frame R)
    arima_params (endog exog : list string) out :
  lag_ordered p q exog arima_params.*1 → (1 ≤ p)%Z →
  set_up_kalman_filter p q d df arima_params endog exog = Ok out →
  length (su_T out) = length (su_state_vars out) ∧
  (∀ k : nat, (1 ≤ Z.of_nat k < p)%Z →
     su_T out !! k = Some (onehot (length (su_state_vars out)) (k - 1))) ∧
  (∀ k : nat, (p ≤ Z.of_nat k)%Z → k < length (su_state_vars out) →
     su_T out !! k = Some (onehot (length (su_state_vars out)) k)) ∧
  (unit_laws (R := R) →
   ∀ v : list R, length v = length (su_state_vars out) →
     (∀ k : nat, (1 ≤ Z.of_nat k < p)%Z →
        matvec (su_T out) v !! k = v !! (k - 1)) ∧
     (∀ k : nat, (p ≤ Z.of_nat k)%Z → k < length v →
        matvec (su_T out) v !! k = v !! k)).
Proof.
  intros Hord Hp1 Hout.
  pose proof (state_vars_length _ _ _ _ _ _ _ _ Hout) as Hlen.
  destruct (set_up_ordered _ _ _ _ _ _ _ _ Hord Hout)
    as (exos & coefs & Hp & Hq & Hd & Hsv & Hnd & Hexos & _ & HT).
  rewrite Hsv in HT, Hnd.
  destruct (block_rows p q exos coefs Hp1 Hq Hnd) as (Hrows & Hshift & Hcarry).
  rewrite <- HT, <- Hsv in Hrows, Hshift, Hcarry.
  repeat (split; [done|]).
  intros Hlaws v Hv. split.
  - intros k Hk.
    destruct (v !! (k - 1)) as [a|] eqn:Ha.
    + eapply matvec_onehot; [done | | done]. rewrite Hv. by apply Hshift.
    + apply lookup_ge_None in Ha. lia.
  - intros k Hk Hkv.
    destruct (v !! k) as [a|] eqn:Ha.
    + eapply matvec_onehot; [done | | done]. rewrite Hv.
      apply Hcarry; [done | lia].
    + apply lookup_ge_None in Ha. lia.
Qed.

(** C6. On fitted names with [p = 0] the matrix that the construction
    returns has one row more than [no_params]: the coefficient row is added
    to the [q + d] rows of the MA and exogenous blocks, so [T] is not
    square. *)
Theorem transition_matrix_rows_without_ar (q d : Z) (df : frame R)
    arima_params (endog exog : list string) out :
  fitted_names 0 q exog arima_params.*1 →
  set_up_kalman_filter 0 q d df arima_params endog exog = Ok out →
  Z.of_nat (length (su_T out)) = (0 + q + d + 1)%Z ∧
  Forall (λ row, Z.of_nat (length row) = (0 + q + d)%Z) (su_T out).
Proof.
  intros Hfit Hout.
  pose proof (state_vars_length _ _ _ _ _ _ _ _ Hout) as Hlen.
  destruct (set_up_fitted _ _ _ _ _ _ _ _ Hfit Hout)
    as (exos & coefs & Hp & Hq & Hd & Hsv & Hnd & Hexos & Hcoefs & HT).
  rewrite HT. split.
  - rewrite length_cons, !length_app, ar_T_length, ma_T_length,
      exo_T_length. lia.
  - apply Forall_cons. split.
    { apply Forall2_length in Hcoefs. lia. }
    unfold ar_T, ma_T, exo_T. rewrite !Forall_app, !Forall_fmap.
    repeat split; apply Forall_forall; intros; simpl;
      by rewrite length_fmap.
Qed.

(** ** Errors and shapes of the construction, whatever the names *)

Lemma dict_get_total arima_params (k : string) :
  k ∈ arima_params.*1 → ∃ v, dict_get arima_params k = Ok v.
Proof.
  induction arima_params as [|[k' v'] d IH]; simpl.
  - by intros ?%elem_of_nil.
  - intros [->|Hin]%elem_of_cons.
    + rewrite decide_True by done. eauto.
    + destruct (decide (k' = k)); eauto.
Qed.

Lemma dict_comprehension_total arima_params (keys : list string) :
  (∀ k, k ∈ keys → k ∈ arima_params.*1) →
  ∃ reordered, dict_comprehension arima_params keys = Ok reordered.
Proof.
  unfold dict_comprehension. generalize (@nil (string * R)).
  induction keys as [|k keys IH]; intros acc Hkeys; simpl; [eauto|].
  destruct (dict_get_total arima_params k) as [v ->]; [apply Hkeys; by left|].
  simpl. apply IH. intros k' ?. apply Hkeys. by right.
Qed.

Lemma dict_set_keys (acc : list (string * R)) (k : string) (v : R) :
  (dict_set acc k v).*1
  = if decide (k ∈ acc.*1) then acc.*1 else acc.*1 ++ [k].
Proof.
  induction acc as [|[k' v'] acc IH].
  - rewrite decide_False; [done | apply not_elem_of_nil].
  - change (dict_set ((k', v') :: acc) k v)
      with (if decide (k' = k) then (k', v) :: acc
            else (k', v') :: dict_set acc k v).
    destruct (decide (k' = k)) as [->|Hne]; rewrite !fmap_cons; cbn [fst].
    + rewrite decide_True; [done | by left].
    + rewrite IH. destruct (decide (k ∈ acc.*1)) as [Hin|Hnin].
      * rewrite decide_True; [done | by right].
      * rewrite decide_False; [done|].
        intros [?|?]%elem_of_cons; [congruence | done].
Qed.

(** The rebuilt dictionary has one entry per distinct key: it is as long as
    the list of keys only if no key repeats. *)
Lemma dict_comprehension_full arima_params (keys : list string) reordered :
  dict_comprehension arima_params keys = Ok reordered →
  length reordered = length keys → NoDup keys.
Proof.
  unfold dict_comprehension.
  enough (∀ acc r,
    for_each (λ item acc, v ← dict_get arima_params item;
                           Ok (dict_set acc item v)) keys acc = Ok r →
    length r ≤ length acc + length keys ∧
    (length r = length acc + length keys →
     NoDup keys ∧ ∀ k, k ∈ keys → k ∉ acc.*1)) as Hgen.
  { intros H Hlen. apply Hgen in H as [_ H]. by apply H. }
  induction keys as [|k keys IH]; intros acc r; simpl.
  - intros [= <-]. split; [lia|]. intros _. split; [constructor|].
    by intros k ?%elem_of_nil.
  - intros (acc1 & H1 & H2)%bind_Ok.
    apply bind_Ok in H1 as (v & _ & [= <-]).
    apply IH in H2 as [Hle Heq].
    assert (length (dict_set acc k v)
            = if decide (k ∈ acc.*1) then length acc else S (length acc))
      as Hset.
    { rewrite <- (length_fmap fst (dict_set acc k v)), dict_set_keys.
      destruct (decide (k ∈ acc.*1));
        rewrite ?length_app, length_fmap; simpl; lia. }
    destruct (decide (k ∈ acc.*1)) as [Hin|Hnin].
    + split; [lia|]. intros Hlen. lia.
    + split; [lia|]. intros Hlen.
      destruct Heq as [Hnd Hfresh]; [lia|].
      assert (∀ k', k' ∈ keys → (k' ∉ acc.*1) ∧ k' ≠ k) as Hks.
      { intros k' Hk'. specialize (Hfresh k' Hk').
        rewrite dict_set_keys, decide_False in Hfresh by done.
        rewrite elem_of_app, list_elem_of_singleton in Hfresh. tauto. }
      split.
      * apply NoDup_cons. split; [|done].
        intros Hk. by destruct (Hks k Hk).
      * intros k' [->|Hk']%elem_of_cons; [done|]. by apply Hks.
Qed.

Lemma np_append_ncols (A B C : matrix R) :
  np_append A B = Ok C → B ≠ [] ∧ ncols A = ncols B.
Proof.
  unfold np_append. destruct B; [done|].
  case_bool_decide; [by intros _ | done].
Qed.

Lemma np_append_conforming (A B : matrix R) :
  B ≠ [] → ncols A = ncols B → np_append A B = Ok (A ++ B).
Proof.
  intros HB Hn. unfold np_append. destruct B; [done|].
  by rewrite bool_decide_eq_true_2.
Qed.

Lemma ar_T_ncols (p : Z) state_vars :
  (p > 1)%Z → ar_T (R := R) p state_vars ≠ []
              ∧ ncols (ar_T (R := R) p state_vars) = length state_vars.
Proof.
  intros Hp. unfold ar_T, range. rewrite seqZ_cons by lia. simpl.
  split; [done | by rewrite length_fmap].
Qed.

Lemma ma_T_ncols (q : Z) state_vars :
  (q > 0)%Z → ma_T (R := R) q state_vars ≠ []
              ∧ ncols (ma_T (R := R) q state_vars) = length state_vars.
Proof.
  intros Hq. unfold ma_T, range. rewrite seqZ_cons by lia. simpl.
  split; [done | by rewrite length_fmap].
Qed.

Lemma exo_T_ncols (exos state_vars : list string) :
  exos ≠ [] → exo_T (R := R) exos state_vars ≠ []
              ∧ ncols (exo_T (R := R) exos state_vars) = length state_vars.
Proof.
  intros He. destruct exos as [|exo exos]; [done|]. simpl.
  split; [done | by rewrite length_fmap].
Qed.

(** Appending any block forces the coefficient row to be as long as the
    state vector. *)
Lemma transition_matrix_ncols (p q d : Z) (coefficients : list R) state_vars
    (exos : list string) (T : matrix R) :
  Z.of_nat (length exos) = d → (p > 1 ∨ q > 0 ∨ d > 0)%Z →
  transition_matrix p q d coefficients state_vars exos = Ok T →
  length coefficients = length state_vars.
Proof.
  intros Hd Hguard. unfold transition_matrix.
  intros (T1 & H1 & H2)%bind_Ok.
  apply bind_Ok in H2 as (T2 & H2 & H3).
  destruct (decide (p > 1)%Z) as [Hp|Hp].
  { rewrite bool_decide_eq_true_2 in H1 by done.
    apply np_append_ncols in H1 as [_ H1].
    destruct (ar_T_ncols p state_vars Hp) as [_ Hn]. by rewrite Hn in H1. }
  rewrite bool_decide_eq_false_2 in H1 by done. injection H1 as <-.
  destruct (decide (q > 0)%Z) as [Hq|Hq].
  { rewrite bool_decide_eq_true_2 in H2 by done.
    apply np_append_ncols in H2 as [_ H2].
    destruct (ma_T_ncols q state_vars Hq) as [_ Hn]. by rewrite Hn in H2. }
  rewrite bool_decide_eq_false_2 in H2 by done. injection H2 as <-.
  rewrite bool_decide_eq_true_2 in H3 by lia.
  apply np_append_ncols in H3 as [_ H3].
  destruct (exo_T_ncols exos state_vars) as [_ Hn].
  { destruct exos; [simpl in Hd; lia | done]. }
  by rewrite Hn in H3.
Qed.

Lemma groups_in_names (exog names : list string) (k : string) :
  k ∈ ar_params names ++ ma_parmas names ++ exo_params exog names →
  k ∈ names.
Proof.
  rewrite !elem_of_app. unfold ar_params, ma_parmas, exo_params.
  rewrite !list_elem_of_filter. tauto.
Qed.

(** A returned state vector has no repeated name, when the dictionary keys
    are distinct. *)
Lemma set_up_NoDup (p q d : Z) (df : frame R) arima_params
    (endog exog : list string) out :
  NoDup arima_params.*1 →
  set_up_kalman_filter p q d df arima_params endog exog = Ok out →
  NoDup (su_state_vars out).
Proof.
  intros Hnd (_ & Hp & Hq & Hd & Hsv & (reordered & Hdict & HT) & _)%set_up_Ok.
  destruct (decide (p > 1 ∨ q > 0 ∨ d > 0)%Z) as [Hguard|Hguard].
  - apply (dict_comprehension_full arima_params _ reordered Hdict).
    rewrite <- (length_fmap snd).
    by eapply transition_matrix_ncols.
  - rewrite Hsv.
    assert (ma_parmas arima_params.*1 = []) as ->.
    { apply length_zero_iff_nil. lia. }
    assert (exo_params exog arima_params.*1 = []) as ->.
    { apply length_zero_iff_nil. lia. }
    rewrite !app_nil_r. by apply NoDup_filter.
Qed.

(** With distinct dictionary keys, a construction that returns has taken
    no parameter name into two groups: the state vector repeats no name, so
    no name carries both lag markers, and no name with a lag marker is also
    an exogenous column. *)
Theorem returned_state_vars_are_distinct (p q d : Z) (df : frame R)
    arima_params (endog exog : list string) out :
  NoDup arima_params.*1 →
  set_up_kalman_filter p q d df arima_params endog exog = Ok out →
  NoDup (su_state_vars out) ∧
  ∀ name, name ∈ arima_params.*1 →
    ¬ (contains "ar." name ∧ contains "ma." name) ∧
    ¬ (contains "ar." name ∧ name ∈ exog) ∧
    ¬ (contains "ma." name ∧ name ∈ exog).
Proof.
  intros Hnd Hout.
  pose proof (set_up_NoDup _ _ _ _ _ _ _ _ Hnd Hout) as Hsv.
  split; [done|].
  apply set_up_Ok in Hout as (_ & _ & _ & _ & Heq & _).
  rewrite Heq in Hsv.
  apply NoDup_app in Hsv as (_ & Har & Hsv).
  apply NoDup_app in Hsv as (_ & Hma & _).
  unfold ar_params, ma_parmas, exo_params in Har, Hma.
  intros name Hin. split; [|split]; intros [H1 H2].
  - apply (Har name); [by apply list_elem_of_filter|].
    apply elem_of_app. left. by apply list_elem_of_filter.
  - apply (Har name); [by apply list_elem_of_filter|].
    apply elem_of_app. right. by apply list_elem_of_filter.
  - apply (Hma name); by apply list_elem_of_filter.
Qed.

(** Once the three assertions of lines 37-39 have passed, the stages that
    work on the chained groups raise neither [KeyError] nor [IndexError]:
    every state variable is a key of the dictionary, so the comprehension
    of line 45 returns; and the MA mask has one entry per state variable,
    so it fits the middle axis of [zs] at line 79. What lines 58-61 and
    78-79 can raise is a shape [ValueError]. The column lookups of lines
    70-72 are not among these stages. *)
Theorem group_stages_raise_value_error_only (p q d : Z) (df : frame R)
    (arima_params : list (string * R)) (exog : list string) :
  let state_vars := ar_params arima_params.*1 ++ ma_parmas arima_params.*1
                    ++ exo_params exog arima_params.*1 in
  Z.of_nat (length (ar_params arima_params.*1)) = p →
  Z.of_nat (length (ma_parmas arima_params.*1)) = q →
  Z.of_nat (length (exo_params exog arima_params.*1)) = d →
  (∃ reordered, dict_comprehension arima_params state_vars = Ok reordered) ∧
  (∀ coefficients e,
     transition_matrix p q d coefficients state_vars
       (exo_params exog arima_params.*1) = Raise e → e = ValueError) ∧
  (∀ e, observation_tensor q (p + q + d) df (ma_bool_mask state_vars)
        = Raise e → e = ValueError).
Proof.
  intros state_vars Hp Hq Hd. split; [|split].
  - apply dict_comprehension_total. intros k. apply groups_in_names.
  - intros coefficients e H. by eapply transition_matrix_Raise.
  - intros e H. unfold observation_tensor in H.
    case_bool_decide; [|by injection H as <-].
    rewrite mask_fits_same_length in H.
    + case_bool_decide; [done | by injection H as <-].
    + unfold ma_bool_mask, state_vars. rewrite length_fmap, !length_app. lia.
Qed.

Lemma transition_matrix_conforming (p q d : Z) (coefficients : list R)
    state_vars (exos : list string) :
  length coefficients = length state_vars → Z.of_nat (length exos) = d →
  ∃ T, transition_matrix p q d coefficients state_vars exos = Ok T.
Proof.
  intros Hlen Hd. unfold transition_matrix.
  assert (∃ T1, (if bool_decide (p > 1)%Z
                 then np_append [coefficients] (ar_T p state_vars)
                 else Ok [coefficients]) = Ok T1
                ∧ ncols T1 = length state_vars) as (T1 & -> & Hn1).
  { case_bool_decide as Hp; [|eauto].
    destruct (ar_T_ncols p state_vars Hp) as [Hne Hn].
    rewrite np_append_conforming by (done || by rewrite Hn). eauto. }
  simpl.
  assert (∃ T2, (if bool_decide (q > 0)%Z
                 then np_append T1 (ma_T q state_vars)
                 else Ok T1) = Ok T2
                ∧ ncols T2 = length state_vars) as (T2 & -> & Hn2).
  { case_bool_decide as Hq; [|eauto].
    destruct (ma_T_ncols q state_vars Hq) as [Hne Hn].
    rewrite np_append_conforming by (done || by rewrite Hn).
    eexists. split; [done|]. destruct T1; [|done].
    simpl in *. by rewrite Hn. }
  simpl. case_bool_decide as Hd'; [|eauto].
  destruct (exo_T_ncols exos state_vars) as [Hne Hn].
  { destruct exos; [simpl in Hd; lia | done]. }
  rewrite np_append_conforming by (done || by rewrite Hn). eauto.
Qed.

Lemma mask_count_all (l : list string) :
  Forall (λ s, contains "ma.L" s = true) l →
  length (filter (λ b, b = true) (ma_bool_mask l)) = length l.
Proof.
  induction 1 as [|s l Hs Hl IH]; [done|].
  unfold ma_bool_mask in *. rewrite fmap_cons, Hs.
  rewrite filter_cons_True by done. simpl. by rewrite IH.
Qed.

Lemma mask_count_none (l : list string) :
  Forall (λ s, contains "ma.L" s = false) l →
  filter (λ b, b = true) (ma_bool_mask l) = [].
Proof.
  induction 1 as [|s l Hs Hl IH]; [done|].
  unfold ma_bool_mask in *. rewrite fmap_cons, Hs.
  by rewrite filter_cons_False.
Qed.

(** On a state vector of AR lags, MA lags and marker-free names the MA mask
    selects the MA lags and nothing else. *)
Lemma layout_mask_count (p q : Z) (exog exos : list string) :
  (0 ≤ q)%Z → Forall (λ s, s ∈ exog ∧ marker_free s) exos →
  Z.of_nat (length (filter (λ b, b = true)
    (ma_bool_mask ((ar_name <$> range 1 (p + 1))
                   ++ (ma_name <$> range 1 (q + 1)) ++ exos)))) = q.
Proof.
  intros Hq Hexos. unfold ma_bool_mask. rewrite !fmap_app, !filter_app.
  fold (ma_bool_mask (ar_name <$> range 1 (p + 1))).
  fold (ma_bool_mask (ma_name <$> range 1 (q + 1))).
  fold (ma_bool_mask exos).
  rewrite (mask_count_none (ar_name <$> _)), (mask_count_none exos),
    app_nil_r; simpl.
  - rewrite mask_count_all, lag_names_length; [lia|].
    apply Forall_fmap, Forall_forall. intros i _. simpl.
    by destruct (ma_name_has_ma i).
  - eapply Forall_impl; [exact Hexos|]. intros s [_ Hs].
    by destruct (marker_free_masks s Hs).
  - apply Forall_fmap, Forall_forall. intros i Hi%range_elem. simpl.
    destruct (ar_name_no_ma i); [lia | done].
Qed.

(** On fitted names, and given a joined table with [p + q + d] columns,
    lines 34-61 and 78-79 raise nothing when the orders are not negative
    and [d] is the number of fitted exogenous names: the counts of the AR
    and MA groups are [p] and [q], the dictionary is rebuilt over the state
    variables, the blocks of [T] are appended without a shape error, and
    [zs] is reshaped and its MA entries are set to zero. *)
Theorem group_stages_return_on_fitted_names (p q d : Z) (df : frame R)
    (arima_params : list (string * R)) (exog : list string) :
  let state_vars := ar_params arima_params.*1 ++ ma_parmas arima_params.*1
                    ++ exo_params exog arima_params.*1 in
  fitted_names p q exog arima_params.*1 → (0 ≤ p)%Z → (0 ≤ q)%Z →
  Z.of_nat (length (exo_params exog arima_params.*1)) = d →
  Z.of_nat (columns df) = (p + q + d)%Z →
  Z.of_nat (length (ar_params arima_params.*1)) = p ∧
  Z.of_nat (length (ma_parmas arima_params.*1)) = q ∧
  ∃ reordered T zs,
    dict_comprehension arima_params state_vars = Ok reordered ∧
    transition_matrix p q d (reordered.*2) state_vars
      (exo_params exog arima_params.*1) = Ok T ∧
    observation_tensor q (p + q + d) df (ma_bool_mask state_vars) = Ok zs.
Proof.
  intros state_vars Hfit Hp Hq Hd Hdf.
  destruct (fitted_groups _ _ _ _ Hfit) as (Har & Hma & Hexo & Hnd).
  split; [rewrite Har, lag_names_length; lia|].
  split; [rewrite Hma, lag_names_length; lia|].
  destruct (dict_comprehension_total arima_params state_vars)
    as [reordered Hdict].
  { intros k. apply groups_in_names. }
  pose proof Hdict as Hdict'.
  apply dict_comprehension_Ok in Hdict' as [Hkeys _]; [|done].
  destruct (transition_matrix_conforming p q d (reordered.*2) state_vars
              (exo_params exog arima_params.*1)) as [T HT]; [|done|].
  { by rewrite <- Hkeys, !length_fmap. }
  exists reordered, T. eexists. split; [done|]. split; [done|].
  unfold observation_tensor.
  rewrite bool_decide_eq_true_2 by lia.
  rewrite mask_fits_same_length.
  2: { unfold ma_bool_mask, state_vars.
       rewrite length_fmap, !length_app, Har, Hma, !lag_names_length. lia. }
  rewrite bool_decide_eq_true_2; [done|].
  left. unfold state_vars. rewrite Har, Hma. symmetry.
  by eapply layout_mask_count.
Qed.

Lemma indicator_row_absent state_vars (name : string) :
  name ∉ state_vars →
  (λ item, indicator (R := R) (bool_decide (item = name))) <$> state_vars
  = replicate (length state_vars) zero.
Proof.
  induction state_vars as [|s sv IH]; [done|].
  intros [Hne Hnin]%not_elem_of_cons. rewrite fmap_cons, IH by done.
  simpl. by rewrite bool_decide_eq_false_2 by congruence.
Qed.

Lemma indicator_row_cases state_vars (name : string) :
  NoDup state_vars →
  (∃ c, c < length state_vars ∧
     (λ item, indicator (R := R) (bool_decide (item = name))) <$> state_vars
     = onehot (length state_vars) c) ∨
  (λ item, indicator (R := R) (bool_decide (item = name))) <$> state_vars
  = replicate (length state_vars) zero.
Proof.
  intros Hnd. destruct (decide (name ∈ state_vars)) as [Hin|Hnin].
  - left. apply list_elem_of_lookup in Hin as [c Hc]. exists c.
    split; [by eapply lookup_lt_Some | by apply indicator_row_onehot].
  - right. by apply indicator_row_absent.
Qed.

(** With distinct dictionary keys, a returned [T] has
    [1 + max(p - 1, 0) + q + d] rows, each with one entry per state variable.
    Row 0 lists the fitted value of every state variable in state-vector
    order, and every row below it is one-hot or all zero. *)
Theorem transition_matrix_shape (p q d : Z) (df : frame R) arima_params
    (endog exog : list string) out :
  NoDup arima_params.*1 →
  set_up_kalman_filter p q d df arima_params endog exog = Ok out →
  Z.of_nat (length (su_T out)) = (1 + Z.max (p - 1) 0 + q + d)%Z ∧
  Forall (λ row, length row = length (su_state_vars out)) (su_T out) ∧
  ∃ coefficients rest,
    su_T out = coefficients :: rest ∧
    Forall2 (λ k v, dict_get arima_params k = Ok v)
            (su_state_vars out) coefficients ∧
    Forall (λ row,
              (∃ c, c < length (su_state_vars out)
                    ∧ row = onehot (length (su_state_vars out)) c)
              ∨ row = replicate (length (su_state_vars out)) zero) rest.
Proof.
  intros Hkeys Hout.
  pose proof (set_up_NoDup _ _ _ _ _ _ _ _ Hkeys Hout) as Hnd.
  apply set_up_Ok in Hout
    as (_ & Hp & Hq & Hd & Hsv & (reordered & Hdict & HT) & _).
  apply transition_matrix_Ok in HT; [|done].
  apply dict_comprehension_Ok in Hdict as [Hk Hcoefs]; [|done].
  assert (Forall (λ row,
            (∃ c, c < length (su_state_vars out)
                  ∧ row = onehot (length (su_state_vars out)) c)
            ∨ row = replicate (length (su_state_vars out)) zero)
            (ar_T p (su_state_vars out) ++ ma_T q (su_state_vars out)
             ++ exo_T (exo_params exog arima_params.*1)
                  (su_state_vars out))) as Hrest.
  { unfold ar_T, ma_T, exo_T. rewrite !Forall_app, !Forall_fmap.
    repeat split; apply Forall_forall; intros a _; simpl.
    - by apply indicator_row_cases.
    - by apply indicator_row_cases.
    - destruct (indicator_row_cases (su_state_vars out) a Hnd)
        as [(c & Hc & Heq)|Heq]; [left; exists c; split; [done|] | right];
        rewrite <- Heq; apply list_fmap_ext; intros _ name _; f_equal;
        apply bool_decide_ext; split; congruence. }
  rewrite HT. split; [|split].
  - rewrite length_cons, !length_app, ar_T_length, ma_T_length,
      exo_T_length. lia.
  - apply Forall_cons. split.
    + apply Forall2_length in Hcoefs. done.
    + eapply Forall_impl; [exact Hrest|]. intros row [(c & _ & ->)| ->].
      * apply onehot_length.
      * apply length_replicate.
  - eauto.
Qed.

(** ** Measurement matrices and initial state *)

Lemma dot_zero_row (n : nat) (v : list R) :
  unit_laws (R := R) → dot (replicate n zero) v = zero.
Proof.
  intros (Hm0 & _ & Ha0 & _). revert v.
  induction n as [|n IH]; intros [|a v]; try done.
  unfold dot in *. simpl. by rewrite Hm0, Ha0, IH.
Qed.

Lemma dot_diag_row (n i : nat) (c a : R) (v : list R) :
  unit_laws (R := R) → length v = n → v !! i = Some a →
  dot (<[i := c]> (replicate n zero)) v = mul c a.
Proof.
  intros Hlaws. pose proof Hlaws as (Hm0 & _ & Ha0 & Ha0').
  revert i v. induction n as [|n IH]; intros i [|b v] Hlen Hi; try done.
  simpl in Hlen. destruct i as [|i]; simpl in Hi.
  - injection Hi as ->. unfold dot. simpl.
    fold (dot (replicate n zero) v). by rewrite dot_zero_row, Ha0'.
  - unfold dot. simpl. fold (dot (<[i := c]> (replicate n zero)) v).
    rewrite (IH i v) by (done || lia). by rewrite Hm0, Ha0.
Qed.

Lemma np_diag_length (l : list R) : length (np_diag l) = length l.
Proof. unfold np_diag. apply length_imap. Qed.

Lemma np_diag_lookup (l : list R) (i : nat) (c : R) :
  l !! i = Some c →
  (np_diag l : list (list R)) !! i
  = Some (<[i := c]> (replicate (length l) zero)).
Proof.
  intros Hi. unfold np_diag, matrix. by rewrite list_lookup_imap, Hi.
Qed.

Lemma matvec_np_diag (l v : list R) :
  unit_laws (R := R) → length v = length l →
  matvec (np_diag l) v = zip_with mul l v.
Proof.
  intros Hlaws Hlen. apply list_eq. intros i.
  unfold matvec. rewrite list_lookup_fmap, lookup_zip_with.
  destruct (l !! i) as [c|] eqn:Hc; simpl.
  - rewrite (np_diag_lookup l i c Hc). simpl.
    destruct (v !! i) as [a|] eqn:Ha; simpl.
    + f_equal. by apply dot_diag_row.
    + apply lookup_ge_None in Ha. apply lookup_lt_Some in Hc. lia.
  - unfold np_diag, matrix. by rewrite list_lookup_imap, Hc.
Qed.

Lemma zip_with_repeat (c : R) (n : nat) (v : list R) :
  length v = n → zip_with mul (replicate n c) v = mul c <$> v.
Proof.
  revert v. induction n as [|n IH]; intros [|a v] Hlen; try done.
  simpl. rewrite IH; [done | simpl in Hlen; lia].
Qed.

Lemma diag_entry (n i j : nat) (c : R) :
  i < n → j < n →
  <[i := c]> (replicate n zero) !! j
  = Some (if decide (i = j) then c else zero).
Proof.
  intros Hi Hj. destruct (decide (i = j)) as [->|Hne].
  - apply list_lookup_insert_eq. by rewrite length_replicate.
  - rewrite list_lookup_insert_ne by done. by apply lookup_replicate_2.
Qed.

(** [H] and [P0] are square of size [zdim] (resp. [xdim], 0 when the
    dimension is not positive), carry the given scalar on the diagonal and
    0 elsewhere, and so multiply every coordinate of a vector by that
    scalar. *)
Theorem scalar_diagonal_matrices (c : R) (dim : Z) :
  H_matrix c dim = P0_matrix c dim ∧
  length (H_matrix c dim) = Z.to_nat dim ∧
  (∀ (i j : nat) row, j < Z.to_nat dim → H_matrix c dim !! i = Some row →
     row !! j = Some (if decide (i = j) then c else zero)) ∧
  (unit_laws (R := R) → ∀ v : list R, length v = Z.to_nat dim →
     matvec (H_matrix c dim) v = mul c <$> v).
Proof.
  unfold H_matrix, P0_matrix, py_repeat.
  split; [done|]. split; [by rewrite np_diag_length, length_replicate|].
  split.
  - intros i j row Hj Hrow.
    assert (i < Z.to_nat dim) as Hi.
    { apply lookup_lt_Some in Hrow.
      by rewrite np_diag_length, length_replicate in Hrow. }
    rewrite (np_diag_lookup _ i c) in Hrow by (by apply lookup_replicate_2).
    injection Hrow as <-. rewrite length_replicate. by apply diag_entry.
  - intros Hlaws v Hv.
    rewrite matvec_np_diag by (done || by rewrite length_replicate).
    by apply zip_with_repeat.
Qed.

(** [Z] maps every state vector of size [zdim] to itself. *)
Theorem Z_matrix_is_identity (zdim : Z) (v : list R) :
  unit_laws (R := R) → length v = Z.to_nat zdim →
  length (Z_matrix zdim) = length v ∧ matvec (Z_matrix zdim) v = v.
Proof.
  intros Hlaws Hv. unfold Z_matrix, py_repeat.
  split; [by rewrite np_diag_length, length_replicate|].
  rewrite matvec_np_diag by (done || by rewrite length_replicate).
  rewrite zip_with_repeat by done.
  destruct Hlaws as (_ & Hm1 & _).
  rewrite <- (list_fmap_id v) at 2. apply list_fmap_ext. intros _ a _.
  apply Hm1.
Qed.

(** The initial mean and covariance agree in size: for [xdim ≥ 0] the mean
    has [xdim] entries, each [0 + x0], and [P0] is [xdim × xdim]; a negative
    [xdim] raises [ValueError] for the mean, while [P0] would be empty. *)
Theorem initial_mean_and_covariance (x0 c : R) (xdim : Z) :
  ((xdim < 0)%Z →
     x0_vector x0 xdim = Raise ValueError ∧ P0_matrix c xdim = []) ∧
  ((0 ≤ xdim)%Z → ∃ v,
     x0_vector x0 xdim = Ok v ∧ length v = Z.to_nat xdim ∧
     Forall (λ a, a = add zero x0) v ∧
     length (P0_matrix c xdim) = length v ∧
     Forall (λ row, length row = length v) (P0_matrix c xdim)).
Proof.
  unfold x0_vector, P0_matrix, py_repeat. split; intros Hx.
  - rewrite bool_decide_eq_true_2 by done. split; [done|].
    by replace (Z.to_nat xdim) with 0 by lia.
  - rewrite bool_decide_eq_false_2 by lia. eexists. split; [done|].
    rewrite length_fmap, length_replicate. split; [done|]. split.
    + apply Forall_fmap, Forall_forall.
      by intros a [-> _]%elem_of_replicate.
    + split; [by rewrite np_diag_length, length_replicate|].
      apply Forall_forall. intros row (i & Hrow)%list_elem_of_lookup.
      unfold np_diag, matrix in Hrow. rewrite list_lookup_imap in Hrow.
      destruct (replicate (Z.to_nat xdim) c !! i); [|done].
      injection Hrow as <-.
      by rewrite length_insert, !length_replicate.
Qed.

(** ** The fitted parameters as a dictionary *)

Lemma dict_get_set (acc : list (string * R)) (k k' : string) (v : R) :
  dict_get (dict_set acc k v) k'
  = if decide (k = k') then Ok v else dict_get acc k'.
Proof.
  induction acc as [|[k0 v0] acc IH].
  - simpl. by destruct (decide (k = k')).
  - change (dict_set ((k0, v0) :: acc) k v)
      with (if decide (k0 = k) then (k0, v) :: acc
            else (k0, v0) :: dict_set acc k v).
    destruct (decide (k0 = k)) as [->|Hne]; simpl.
    + by destruct (decide (k = k')).
    + destruct (decide (k0 = k')) as [->|Hne'].
      * by rewrite decide_False by congruence.
      * apply IH.
Qed.

Lemma dict_set_NoDup (acc : list (string * R)) (k : string) (v : R) :
  NoDup acc.*1 → NoDup (dict_set acc k v).*1.
Proof.
  intros Hnd. rewrite dict_set_keys.
  destruct (decide (k ∈ acc.*1)); [done|].
  apply NoDup_app. split; [done|]. split; [|apply NoDup_singleton].
  by intros k' Hk' ->%list_elem_of_singleton.
Qed.

(** Whatever the fit lists, the dictionary of [get_ARMA_test] has distinct
    keys, and looking a name up returns the parameter zipped with its last
    occurrence, or raises [KeyError] when the name is not among the zipped
    names. *)
Theorem fitted_dictionary_last_value_wins (fit : arima_results R)
    (k : string) :
  NoDup (get_ARMA_test fit).2.*1 ∧
  dict_get (get_ARMA_test fit).2 k
  = match last (filter (λ kv, kv.1 = k)
                  (zip (param_names fit) (params fit))) with
    | Some kv => Ok kv.2
    | None => Raise KeyError
    end.
Proof.
  unfold get_ARMA_test, dict_zip. simpl.
  generalize (zip (param_names fit) (params fit)). intros l.
  induction l as [|[k0 v0] l IH] using rev_ind.
  - split; [constructor | done].
  - destruct IH as [IHnd IHget]. rewrite fold_left_app. simpl.
    split; [by apply dict_set_NoDup|].
    rewrite dict_get_set, filter_app. simpl.
    destruct (decide (k0 = k)) as [->|Hne].
    + rewrite filter_cons_True, filter_nil by done. by rewrite last_snoc.
    + rewrite filter_cons_False, filter_nil, app_nil_r by done. done.
Qed.

Lemma fold_dict_set_fresh (l acc : list (string * R)) :
  NoDup (acc.*1 ++ l.*1) →
  fold_left (λ acc kv, dict_set acc kv.1 kv.2) l acc = acc ++ l.
Proof.
  revert acc. induction l as [|[k v] l IH]; intros acc Hnd; simpl.
  - by rewrite app_nil_r.
  - rewrite dict_set_fresh.
    + rewrite IH; [by rewrite <- app_assoc|].
      rewrite fmap_app. simpl. by rewrite <- app_assoc.
    + apply NoDup_app in Hnd as (_ & Hdisj & _).
      intros Hin. apply (Hdisj k Hin). simpl. by left.
Qed.

(** When the fit lists distinct names and as many parameters, the
    dictionary of [get_ARMA_test] is the names zipped with the parameters,
    in the order of the fit: its keys are the names, its values the
    parameters, and every name looks up its own parameter. *)
Theorem fitted_dictionary_round_trip (fit : arima_results R) :
  NoDup (param_names fit) →
  length (param_names fit) = length (params fit) →
  (get_ARMA_test fit).2 = zip (param_names fit) (params fit) ∧
  (get_ARMA_test fit).2.*1 = param_names fit ∧
  (get_ARMA_test fit).2.*2 = params fit ∧
  ∀ (i : nat) name v,
    param_names fit !! i = Some name → params fit !! i = Some v →
    dict_get (get_ARMA_test fit).2 name = Ok v.
Proof.
  intros Hnd Hlen. unfold get_ARMA_test, dict_zip. simpl.
  assert ((zip (param_names fit) (params fit)).*1 = param_names fit)
    as Hfst by (apply fst_zip; lia).
  assert ((zip (param_names fit) (params fit)).*2 = params fit)
    as Hsnd by (apply snd_zip; lia).
  rewrite fold_dict_set_fresh by (by rewrite Hfst).
  simpl. repeat (split; [done|]).
  intros i name v Hname Hv.
  assert (zip (param_names fit) (params fit) !! i = Some (name, v)) as Hi.
  { apply lookup_zip_with_Some. eauto. }
  revert Hnd Hi. rewrite <- Hfst at 1.
  generalize (zip (param_names fit) (params fit)). clear. intros l.
  revert i. induction l as [|[k0 v0] l IH]; intros i Hnd Hi; [done|].
  simpl in Hnd. apply NoDup_cons in Hnd as [Hfresh Hnd].
  destruct i as [|i]; simpl in *.
  - injection Hi as -> ->. by rewrite decide_True.
  - rewrite decide_False; [by eapply IH|].
    intros ->. apply Hfresh. apply list_elem_of_fmap.
    exists (name, v). split; [done | by eapply list_elem_of_lookup_2].
Qed.
End TransitionFacts.

(** ** Concrete runs *)

Lemma demo_params_fitted : fitted_names 1 1 ["x1"] demo_params.*1.
Proof.
  split; [|split].
  - compute_done.
  - repeat constructor.
  - exists ["const"; "x1"], [], ["sigma2"]. split; [reflexivity|].
    repeat constructor.
Defined.

Lemma ma1_params_fitted : fitted_names 0 1 [] ma1_params.*1.
Proof.
  split; [|split].
  - compute_done.
  - constructor.
  - exists [], [], []. split; [reflexivity | constructor].
Defined.

(** C1 on the first step of a run with two MA lags. *)
Lemma ma_injection_writes_residual_witness :
  (2 > 0)%Z ∧ (0 ≤ 0)%Z ∧
  (0 + 2 < len_zs (tensor (initial_state demo_kf2 demo_zs2)))%Z ∧
  ∃ st',
    loop_body 2 demo_vars2 0 (initial_state demo_kf2 demo_zs2) = Ok st' ∧
    ∃ obs row1 a b,
      tensor (initial_state demo_kf2 demo_zs2)
        !! z (initial_state demo_kf2 demo_zs2) = Some obs ∧
      kfilter st' = update (predict demo_kf2) obs ∧
      tensor (initial_state demo_kf2 demo_zs2) !! S (Z.to_nat (0 + 1))
      = Some row1 ∧
      getitem0 (select (ma_bool_mask demo_vars2) row1) = Ok a ∧
      getitem0 (x (kfilter st')) = Ok b ∧
      ∀ iz, (0 ≤ iz < 2)%Z → ∃ row row',
        tensor (initial_state demo_kf2 demo_zs2)
          !! S (Z.to_nat (0 + iz + 1)) = Some row ∧
        tensor st' !! S (Z.to_nat (0 + iz + 1)) = Some row' ∧
        ∀ j : nat,
          (demo_vars2 !! j = Some (ma_name (iz + 1)) →
           row' !! j = Some (sub a b)) ∧
          (demo_vars2 !! j ≠ Some (ma_name (iz + 1)) →
           row' !! j = row !! j).
Proof.
  assert (0 + 2 < len_zs (tensor (initial_state demo_kf2 demo_zs2)))%Z
    as Hlen by (vm_compute; reflexivity).
  split; [lia|]. split; [lia|]. split; [exact Hlen|].
  destruct (loop_body 2 demo_vars2 0 (initial_state demo_kf2 demo_zs2))
    as [st'|e] eqn:Hbody; [|vm_compute in Hbody; discriminate].
  exists st'. split; [reflexivity|].
  apply (ma_injection_writes_residual 2 0 demo_vars2
           (initial_state demo_kf2 demo_zs2) st');
    [lia | lia | exact Hlen | exact Hbody].
Defined.


(** C4 on the same run. *)
Lemma output_lengths_witness :
  ∃ st,
    kalman_filter 1 1 0 demo_kf demo_zs demo_vars = Ok st ∧
    length (X_out st) = length demo_zs ∧
    length (P_out st) = length demo_zs ∧
    length (LL_out st) = length demo_zs ∧
    length (X_pred st) = length demo_zs + 1 ∧
    length (P_pred st) = length demo_zs + 1 ∧
    ∃ st1,
      kfilter st = predict (kfilter st1) ∧
      X_pred st = X_pred st1 ++ [x (kfilter st)] ∧
      P_pred st = P_pred st1 ++ [P (kfilter st)] ∧
      X_out st = X_out st1 ∧ P_out st = P_out st1 ∧ LL_out st = LL_out st1 ∧
      length (X_pred st1) = length demo_zs.
Proof.
  destruct (kalman_filter 1 1 0 demo_kf demo_zs demo_vars)
    as [st|e] eqn:Hrun; [|vm_compute in Hrun; discriminate].
  exists st. split; [reflexivity|].
  exact (output_lengths 1 1 0 demo_kf demo_zs demo_vars st Hrun).
Defined.

(** C8 on the ARMA(1,1) model with one regressor. *)
Lemma zs_shape_and_zero_ma_witness :
  frame_wf demo_df ∧
  ∃ out,
    set_up_kalman_filter 1 1 1 demo_df demo_params ["y"] ["x1"] = Ok out ∧
    length (su_zs out) = length (values demo_df) ∧
    Forall (λ row, Z.of_nat (length row) = (1 + 1 + 1)%Z) (su_zs out) ∧
    ∀ row (j : nat),
      row ∈ su_zs out →
      ma_bool_mask (su_state_vars out) !! j = Some true →
      row !! j = Some zero.
Proof.
  assert (frame_wf demo_df) as Hwf by (repeat constructor).
  split; [exact Hwf|].
  destruct (set_up_kalman_filter 1 1 1 demo_df demo_params ["y"] ["x1"])
    as [out|e] eqn:Hout; [|vm_compute in Hout; discriminate].
  exists out. split; [reflexivity|].
  exact (zs_shape_and_zero_ma 1 1 1 demo_df demo_params ["y"] ["x1"] out
           Hwf Hout).
Defined.

Lemma arma22x_params_ordered : lag_ordered 2 2 ["x1"] arma22x_params.*1.
Proof.
  split; [|split; [|split]].
  - compute_done.
  - reflexivity.
  - reflexivity.
  - repeat constructor.
Defined.

(** C7 (amended) on an ARMA(2,2) model with one regressor. *)
Lemma state_vars_layout_witness :
  lag_ordered 2 2 ["x1"] arma22x_params.*1 ∧
  ∃ out,
    set_up_kalman_filter 2 2 1 arma22x_df arma22x_params ["y"] ["x1"]
    = Ok out ∧
    Z.of_nat (length (su_state_vars out)) = (2 + 2 + 1)%Z ∧
    (∀ j : nat, j < length (su_state_vars out) →
       ar_bool_mask (su_state_vars out) !! j
       = Some (bool_decide (Z.of_nat j < 2)%Z) ∧
       ma_bool_mask (su_state_vars out) !! j
       = Some (bool_decide (2 ≤ Z.of_nat j < 2 + 2)%Z) ∧
       ∃ name, su_state_vars out !! j = Some name
               ∧ (name ∈ ["x1"] ↔ (2 + 2 ≤ Z.of_nat j)%Z)) ∧
    (∀ i, (1 ≤ i ≤ 2)%Z →
       su_state_vars out !! Z.to_nat (i - 1) = Some (ar_name i)) ∧
    (∀ i, (1 ≤ i ≤ 2)%Z →
       su_state_vars out !! Z.to_nat (2 + i - 1) = Some (ma_name i)).
Proof.
  split; [exact arma22x_params_ordered|].
  destruct (set_up_kalman_filter 2 2 1 arma22x_df arma22x_params
              ["y"] ["x1"]) as [out|e] eqn:Hout;
    [|vm_compute in Hout; discriminate].
  exists out. split; [reflexivity|].
  exact (state_vars_layout 2 2 1 arma22x_df arma22x_params ["y"] ["x1"] out
           arma22x_params_ordered Hout).
Defined.

(** C7 as stated fails on dictionaries that pass every assertion. With the
    lags listed in decreasing order the state vector is
    [ar.L2; ar.L1; ma.L2; ma.L1]: position 0 holds AR lag 2 and position 2
    holds MA lag 2, so neither group stands in increasing lag order. With a
    seasonal MA name, which carries [ma.] but not [ma.L], position 1 is
    taken by neither mask and holds no exogenous name: the masks leave a
    gap. With an exogenous column named like a lag the three counts agree
    with [(1, 0, 1)] and the name is chained twice: position 0 is AR-masked
    and exogenous at once (the dictionary of line 45 then has one entry for
    two state variables, and line 61 raises). *)
Lemma unordered_names_break_layout :
  (∃ out,
     set_up_kalman_filter 2 2 0 reversed_df reversed_params ["y"] []
     = Ok out ∧
     su_state_vars out = ["ar.L2"; "ar.L1"; "ma.L2"; "ma.L1"] ∧
     su_state_vars out !! Z.to_nat (1 - 1) ≠ Some (ar_name 1) ∧
     su_state_vars out !! Z.to_nat (2 + 1 - 1) ≠ Some (ma_name 1)) ∧
  (∃ out,
     set_up_kalman_filter 1 1 0 seasonal_df seasonal_params ["y"] []
     = Ok out ∧
     su_state_vars out = ["ar.L1"; "ma.S.L4"] ∧
     ar_bool_mask (su_state_vars out) !! 1 = Some false ∧
     ma_bool_mask (su_state_vars out) !! 1 = Some false ∧
     ma_bool_mask (su_state_vars out) !! 1
     ≠ Some (bool_decide (1 ≤ Z.of_nat 1 < 1 + 1)%Z) ∧
     "ma.S.L4" ∉ ([] : list string)) ∧
  (length (ar_params ["ar.L1"]) = 1 ∧ length (ma_parmas ["ar.L1"]) = 0 ∧
   length (exo_params ["ar.L1"] ["ar.L1"]) = 1 ∧
   ar_params ["ar.L1"] ++ ma_parmas ["ar.L1"]
     ++ exo_params ["ar.L1"] ["ar.L1"] = ["ar.L1"; "ar.L1"] ∧
   ar_bool_mask ["ar.L1"; "ar.L1"] = [true; true] ∧
   "ar.L1" ∈ ["ar.L1"] ∧
   set_up_kalman_filter 1 0 1 seasonal_df [("ar.L1", 5%Z)] ["y"] ["ar.L1"]
   = Raise ValueError).
Proof.
  split; [|split].
  - eexists. split; [vm_compute; reflexivity|]. simpl.
    split; [reflexivity|]. split; vm_compute; discriminate.
  - eexists. split; [vm_compute; reflexivity|]. simpl.
    split; [reflexivity|]. split; [reflexivity|]. split; [reflexivity|].
    split; [vm_compute; discriminate | apply not_elem_of_nil].
  - repeat (split; [reflexivity|]). split; [compute_done | reflexivity].
Qed.

(** C2 (amended) on the same ARMA(2,2) model: row 1 is the one AR shift
    row. *)
Lemma ar_rows_shift_ma_exo_rows_carry_witness :
  lag_ordered 2 2 ["x1"] arma22x_params.*1 ∧ (1 ≤ 2)%Z ∧
  ∃ out,
    set_up_kalman_filter 2 2 1 arma22x_df arma22x_params ["y"] ["x1"]
    = Ok out ∧
    length (su_T out) = length (su_state_vars out) ∧
    (∀ k : nat, (1 ≤ Z.of_nat k < 2)%Z →
       su_T out !! k = Some (onehot (length (su_state_vars out)) (k - 1))) ∧
    (∀ k : nat, (2 ≤ Z.of_nat k)%Z → k < length (su_state_vars out) →
       su_T out !! k = Some (onehot (length (su_state_vars out)) k)) ∧
    (unit_laws (R := Z) →
     ∀ v : list Z, length v = length (su_state_vars out) →
       (∀ k : nat, (1 ≤ Z.of_nat k < 2)%Z →
          matvec (su_T out) v !! k = v !! (k - 1)) ∧
       (∀ k : nat, (2 ≤ Z.of_nat k)%Z → k < length v →
          matvec (su_T out) v !! k = v !! k)).
Proof.
  split; [exact arma22x_params_ordered|]. split; [lia|].
  destruct (set_up_kalman_filter 2 2 1 arma22x_df arma22x_params
              ["y"] ["x1"]) as [out|e] eqn:Hout;
    [|vm_compute in Hout; discriminate].
  exists out. split; [reflexivity|].
  apply (ar_rows_shift_ma_exo_rows_carry 2 2 1 arma22x_df arma22x_params
           ["y"] ["x1"] out arma22x_params_ordered); [lia | exact Hout].
Defined.

(** C2 as stated fails on an ARMA(1,2) model with a table of four rows: the
    row of the MA lag-2 slot (row 2) has its 1 in the column of MA lag 2
    (column 2), not of MA lag 1 (column 1), and after one transition step
    the lag-2 slot holds the old lag-2 value 30, not the old lag-1 value 20.
    The shift of the AR rows depends on the order of the names: with the
    lags listed in decreasing order the slot of AR lag 2 is slot 0, and one
    step puts the coefficient row's product there, not the old lag-1 value
    20, while row 1 is one-hot on its own column. With a seasonal MA name
    the MA row is all zeros and carries nothing. With [p = 0] the rows
    stand one place lower: row 0, the slot of MA lag 1, is the coefficient
    row. *)
Lemma ma_rows_do_not_shift :
  (lag_ordered 1 2 [] arma12_params.*1 ∧
   ∃ out,
     set_up_kalman_filter 1 2 0 demo_df4 arma12_params ["y"] [] = Ok out ∧
     su_state_vars out = ["ar.L1"; "ma.L1"; "ma.L2"] ∧
     su_T out = [[5; 6; 7]; [0; 1; 0]; [0; 0; 1]]%Z ∧
     su_T out !! 2 = Some (onehot 3 2) ∧
     su_T out !! 2 ≠ Some (onehot 3 1) ∧
     matvec (su_T out) [10; 20; 30]%Z !! 2 = Some 30%Z ∧
     matvec (su_T out) [10; 20; 30]%Z !! 2 ≠ [10; 20; 30]%Z !! 1) ∧
  (∃ out,
     set_up_kalman_filter 2 2 0 reversed_df reversed_params ["y"] []
     = Ok out ∧
     su_state_vars out = ["ar.L2"; "ar.L1"; "ma.L2"; "ma.L1"] ∧
     su_T out
     = [[5; 6; 7; 8]; [0; 1; 0; 0]; [0; 0; 0; 1]; [0; 0; 1; 0]]%Z ∧
     su_T out !! 1 ≠ Some (onehot 4 (1 - 1)) ∧
     matvec (su_T out) [10; 20; 30; 40]%Z !! 0 = Some 700%Z ∧
     matvec (su_T out) [10; 20; 30; 40]%Z !! 0
     ≠ [10; 20; 30; 40]%Z !! 1) ∧
  (∃ out,
     set_up_kalman_filter 1 1 0 seasonal_df seasonal_params ["y"] []
     = Ok out ∧
     su_state_vars out = ["ar.L1"; "ma.S.L4"] ∧
     su_T out = [[5; 6]; [0; 0]]%Z ∧
     su_T out !! 1 ≠ Some (onehot 2 1)) ∧
  (∃ out,
     set_up_kalman_filter 0 1 0 ma1_df ma1_params ["y"] [] = Ok out ∧
     su_state_vars out = ["ma.L1"] ∧
     su_T out = [[6]; [1]]%Z ∧
     length (su_T out) ≠ length (su_state_vars out) ∧
     su_T out !! 0 ≠ Some (onehot 1 0)).
Proof.
  split; [|split; [|split]].
  - split.
    { split; [compute_done|]. split; [reflexivity|].
      split; [reflexivity | constructor]. }
    eexists. split; [vm_compute; reflexivity|]. simpl.
    repeat split; try reflexivity; vm_compute; discriminate.
  - eexists. split; [vm_compute; reflexivity|]. simpl.
    repeat split; try reflexivity; vm_compute; discriminate.
  - eexists. split; [vm_compute; reflexivity|]. simpl.
    repeat split; try reflexivity; vm_compute; discriminate.
  - eexists. split; [vm_compute; reflexivity|]. simpl.
    repeat split; try reflexivity; vm_compute; discriminate.
Qed.

(** C6 on an MA(1) model: [no_params] is 1 and [T] has two rows. *)
Lemma transition_matrix_rows_without_ar_witness :
  fitted_names 0 1 [] ma1_params.*1 ∧
  ∃ out,
    set_up_kalman_filter 0 1 0 ma1_df ma1_params ["y"] [] = Ok out ∧
    su_T out = [[6]; [1]]%Z ∧
    Z.of_nat (length (su_T out)) = (0 + 1 + 0 + 1)%Z ∧
    Forall (λ row, Z.of_nat (length row) = (0 + 1 + 0)%Z) (su_T out).
Proof.
  split; [exact ma1_params_fitted|].
  destruct (set_up_kalman_filter 0 1 0 ma1_df ma1_params ["y"] [])
    as [out|e] eqn:Hout; [|vm_compute in Hout; discriminate].
  exists out. split; [reflexivity|].
  split; [vm_compute in Hout; by injection Hout as <-|].
  exact (transition_matrix_rows_without_ar 1 0 ma1_df ma1_params
           ["y"] [] out ma1_params_fitted Hout).
Defined.

(** C10 as stated fails with no endogenous variable: the assertion on
    [endog] fires although not more than one variable is supplied and every
    group count agrees with its order. *)
Lemma no_endog_raises :
  ¬ (set_up_kalman_filter 0 0 0 {| columns := 0; values := [] |}
       ([] : list (string * Z)) [] [] = Raise AssertionError
     ↔ 1 < length ([] : list string)
       ∨ Z.of_nat (length (ar_params ([] : list (string * Z)).*1)) ≠ 0%Z
       ∨ Z.of_nat (length (ma_parmas ([] : list (string * Z)).*1)) ≠ 0%Z
       ∨ Z.of_nat (length (exo_params [] ([] : list (string * Z)).*1))
         ≠ 0%Z).
Proof.
  intros [Hraise _].
  assert (set_up_kalman_filter 0 0 0 {| columns := 0; values := [] |}
            ([] : list (string * Z)) [] [] = Raise AssertionError) as H
    by reflexivity.
  apply Hraise in H. simpl in H.
  destruct H as [H|[H|[H|H]]]; [lia | done | done | done].
Qed.

(** ** The residual that the injection writes *)

Section PipelineFacts.
Context {R KF : Type} `{!Scalar R, !KalmanFilter R KF}.
Implicit Types (t : list (list R)) (st : loop_state R KF) (kf : KF).

Lemma select_first (mask : list bool) (row : list R) (j0 : nat) (a : R) :
  mask !! j0 = Some true → (∀ j, j < j0 → mask !! j = Some false) →
  row !! j0 = Some a → ∃ rest, select mask row = a :: rest.
Proof.
  revert mask row. induction j0 as [|j0 IH]; intros [|b mask] [|v row];
    simpl; try done.
  - intros [= ->] _ [= ->]. eauto.
  - intros Hj0 Hbefore Ha.
    assert (b = false) as ->.
    { specialize (Hbefore 0 ltac:(lia)). simpl in Hbefore. congruence. }
    apply IH; [done | | done].
    intros j Hj. apply (Hbefore (S j)). lia.
Qed.

(** An injection at step [i] leaves the [ma.L1] column of the rows after
    row [i + 2] of the caller's tensor as it was: it writes that column in
    row [i + 2] only. *)
Lemma ma_injection_keeps_lag1 (q i : Z) state_vars kf t t' (j0 : nat) :
  (0 ≤ i)%Z → state_vars !! j0 = Some (ma_name 1) →
  ma_injection q i state_vars kf t = Ok t' →
  ∀ r : nat, Z.to_nat i + 3 ≤ r →
    t' !! r ≫= (λ row, row !! j0) = t !! r ≫= (λ row, row !! j0).
Proof.
  intros Hi Hj0. unfold ma_injection.
  case_bool_decide as Hq; [|by intros [= <-]].
  case_bool_decide as Hlen; [|by intros [= <-]].
  intros (residual & _ & H)%bind_Ok. revert H.
  apply (for_each_invariant
           (λ u, ∀ r : nat, Z.to_nat i + 3 ≤ r →
                   u !! r ≫= (λ row, row !! j0)
                   = t !! r ≫= (λ row, row !! j0))); [|done].
  intros iz u u' Hiz%range_elem Hu Hw r Hr.
  apply ma_write_Ok in Hw as (row & _ & Hrow & _ & ->); [|lia].
  rewrite <- (Hu r Hr).
  destruct (decide (r = S (Z.to_nat (i + iz + 1)))) as [->|Hne].
  - rewrite list_lookup_insert_eq by (by eapply lookup_lt_Some).
    rewrite Hrow. simpl. apply assign_lookup_other.
    rewrite list_lookup_fmap, Hj0. simpl.
    intros [= Heq%bool_decide_eq_true]. apply ma_name_inj in Heq. lia.
  - by rewrite list_lookup_insert_ne.
Qed.

Lemma prefix_keeps_lag1 (q : Z) state_vars (k j0 : nat) st0 st :
  state_vars !! j0 = Some (ma_name 1) →
  for_each (loop_body q state_vars) (range 0 (Z.of_nat k)) st0 = Ok st →
  ∀ r : nat, k + 2 ≤ r →
    tensor st !! r ≫= (λ row, row !! j0)
    = tensor st0 !! r ≫= (λ row, row !! j0).
Proof.
  intros Hj0. revert st. induction k as [|k IH]; intros st.
  - simpl. by intros [= <-].
  - replace (Z.of_nat (S k)) with (Z.of_nat k + 1)%Z by lia.
    rewrite range_snoc, for_each_app by lia.
    intros (st1 & H1 & H2)%bind_Ok. simpl in H2.
    apply bind_Ok in H2 as (st2 & H2 & [= <-]).
    apply loop_body_Ok in H2 as (obs & _ & _ & Hinj & _); [|lia].
    intros r Hr. rewrite <- (IH st1 H1 r) by lia.
    eapply ma_injection_keeps_lag1; [| |exact Hinj|]; [lia | done | lia].
Qed.

(** At step [k] of a run from [st0] the residual subtracts the mean's first
    coordinate from the [ma.L1] entry that row [k + 2] of the caller's
    tensor had at the start, when [ma.L1] is the first MA-masked state
    variable. *)
Lemma residual_from_initial (q : Z) state_vars (k j0 : nat) st0 st kf
    (res : R) :
  state_vars !! j0 = Some (ma_name 1) →
  (∀ j, j < j0 → ma_bool_mask state_vars !! j = Some false) →
  for_each (loop_body q state_vars) (range 0 (Z.of_nat k)) st0 = Ok st →
  ma_residual (Z.of_nat k) state_vars kf (tensor st) = Ok res →
  ∃ row a b,
    tensor st0 !! (k + 2) = Some row ∧ row !! j0 = Some a ∧
    getitem0 (x kf) = Ok b ∧ res = sub a b.
Proof.
  intros Hj0 Hfirst Hloop. unfold ma_residual.
  intros (r & [_ ->]%zs_index_Ok & H)%bind_Ok.
  apply bind_Ok in H as (row1 & Hrow1%read_row_Ok & H).
  apply bind_Ok in H as (sel & Hsel & H).
  apply bind_Ok in H as (a & Ha & H).
  apply bind_Ok in H as (b & Hb & [= <-]).
  replace (S (Z.to_nat (Z.of_nat k + 1))) with (k + 2) in Hrow1 by lia.
  assert (ma_bool_mask state_vars !! j0 = Some true) as Hmask.
  { unfold ma_bool_mask. rewrite list_lookup_fmap, Hj0.
    cbv [fmap option_fmap option_map].
    by destruct (ma_name_has_ma 1) as [_ ->]. }
  assert (mask_fits (ma_bool_mask state_vars) (length row1) = true) as Hfit.
  { unfold mask_get in Hsel. by destruct (mask_fits _ _). }
  apply mask_get_Ok in Hsel as ->.
  destruct (lookup_lt_is_Some_2 row1 j0) as [a' Ha'].
  { by eapply mask_fits_lookup. }
  destruct (select_first _ row1 j0 a' Hmask Hfirst Ha') as [rest Hrest].
  rewrite Hrest in Ha. injection Ha as <-.
  pose proof (prefix_keeps_lag1 q state_vars k j0 st0 st Hj0 Hloop (k + 2)
                ltac:(lia)) as Hkeep.
  rewrite Hrow1 in Hkeep. simpl in Hkeep.
  destruct (tensor st0 !! (k + 2)) as [row|] eqn:Hrow; simpl in Hkeep.
  - exists row, a', b. rewrite <- Hkeep. done.
  - congruence.
Qed.

(** When the MA-masked entries of the tensor are 0 at the start (as the
    construction leaves them) and [ma.L1] is the first MA-masked state
    variable, the residual computed at any step [k] of a run is [0 - x[0]]:
    the slot it reads has not been written yet. *)
Theorem residual_is_negated_mean (q : Z) state_vars (k j0 : nat)
    (zs : list (list R)) kf0 st kf (res : R) :
  state_vars !! j0 = Some (ma_name 1) →
  (∀ j, j < j0 → ma_bool_mask state_vars !! j = Some false) →
  (∀ row (j : nat), row ∈ zs →
     ma_bool_mask state_vars !! j = Some true → j < length row →
     row !! j = Some zero) →
  for_each (loop_body q state_vars) (range 0 (Z.of_nat k))
    (initial_state kf0 zs) = Ok st →
  ma_residual (Z.of_nat k) state_vars kf (tensor st) = Ok res →
  ∃ b, getitem0 (x kf) = Ok b ∧ res = sub zero b.
Proof.
  intros Hj0 Hfirst Hzero Hloop Hres.
  destruct (residual_from_initial q state_vars k j0 _ st kf res
              Hj0 Hfirst Hloop Hres) as (row & a & b & Hrow & Ha & Hb & ->).
  exists b. split; [done|]. simpl in Hrow.
  assert (row !! j0 = Some zero) as Hz.
  { apply Hzero.
    - by eapply list_elem_of_lookup_2.
    - unfold ma_bool_mask. rewrite list_lookup_fmap, Hj0.
      cbv [fmap option_fmap option_map].
      by destruct (ma_name_has_ma 1) as [_ ->].
    - by eapply lookup_lt_Some. }
  congruence.
Qed.

(** ** From the construction to the run *)

(** The rows of a returned [zs]: one entry per state variable, 0 under the
    MA mask. *)
Lemma returned_zs_rows (p q d : Z) (df : frame R) arima_params
    (endog exog : list string) out :
  frame_wf df →
  set_up_kalman_filter p q d df arima_params endog exog = Ok out →
  length (su_zs out) = length (values df) ∧
  Forall (λ row, length row = length (su_state_vars out)) (su_zs out) ∧
  ∀ row (j : nat), row ∈ su_zs out →
    ma_bool_mask (su_state_vars out) !! j = Some true → j < length row →
    row !! j = Some zero.
Proof.
  intros Hwf Hout.
  pose proof (state_vars_length _ _ _ _ _ _ _ _ Hout) as Hlen.
  apply set_up_Ok in Hout as (_ & _ & _ & _ & _ & _ & Hzs).
  apply observation_tensor_Ok in Hzs as (Hsize & Hfit & ->).
  split; [by rewrite length_fmap|]. split.
  - apply Forall_fmap, Forall_forall. intros row Hin. simpl.
    rewrite assign_length. unfold frame_wf in Hwf.
    rewrite Forall_forall in Hwf. rewrite (Hwf row Hin).
    assert (length (values df) ≠ 0).
    { destruct (values df); [by apply elem_of_nil in Hin | done]. }
    nia.
  - intros row' j (row & -> & Hin)%list_elem_of_fmap Hj Hjr.
    rewrite assign_length in Hjr. by apply assign_lookup_true.
Qed.

(** On fitted names with [q > 0], [ma.L1] stands at position [p] of the
    returned state vector and is its first MA-masked name. *)
Lemma fitted_first_ma (p q d : Z) (df : frame R) arima_params
    (endog exog : list string) out :
  fitted_names p q exog arima_params.*1 → (q > 0)%Z →
  set_up_kalman_filter p q d df arima_params endog exog = Ok out →
  su_state_vars out !! Z.to_nat p = Some (ma_name 1) ∧
  ∀ j, j < Z.to_nat p → ma_bool_mask (su_state_vars out) !! j = Some false.
Proof.
  intros Hfit Hq Hout.
  destruct (set_up_fitted _ _ _ _ _ _ _ _ Hfit Hout)
    as (exos & coefs & Hp & _ & _ & Hsv & _ & _ & _ & _).
  destruct (layout_lookup p q exos) as (Har & Hma & _); [lia | lia |].
  rewrite <- Hsv in Har, Hma. split.
  - specialize (Hma 1%Z). replace (Z.to_nat (p + 1 - 1)) with (Z.to_nat p)
      in Hma by lia. apply Hma. lia.
  - intros j Hj. unfold ma_bool_mask. rewrite list_lookup_fmap.
    specialize (Har (Z.of_nat j + 1)%Z).
    replace (Z.to_nat (Z.of_nat j + 1 - 1)) with j in Har by lia.
    rewrite Har by lia. cbv [fmap option_fmap option_map].
    by destruct (ar_name_no_ma (Z.of_nat j + 1)) as [_ ->]; [lia|].
Qed.

(** On the [zs] and [state_vars] that the construction returns for fitted
    names and a table with at least one row, the loop's own indexing raises
    no [IndexError], provided the filter's mean has a first coordinate: the
    two functions agree on the row length and on the MA mask. What
    [predict] and [update] may raise on the matrices handed to them is
    outside this statement. *)
Theorem constructed_run_raises_no_index_error (p q d : Z) (df : frame R)
    arima_params (endog exog : list string) out kf :
  fitted_names p q exog arima_params.*1 → frame_wf df → values df ≠ [] →
  (∀ kf' : KF, x kf' ≠ []) →
  set_up_kalman_filter p q d df arima_params endog exog = Ok out →
  ∀ ie, kalman_filter p q d kf (su_zs out) (su_state_vars out)
        ≠ Raise (IndexError ie).
Proof.
  intros Hfit Hwf Hrows Hx Hout ie.
  destruct (returned_zs_rows _ _ _ _ _ _ _ _ Hwf Hout) as (Hlen & Hshape & _).
  unfold kalman_filter.
  destruct (su_zs out) as [|z0 zs] eqn:Hzs.
  { destruct (values df); [done | simpl in Hlen; lia]. }
  destruct (loop_completes q (su_state_vars out)
              (range 0 (len_zs (z0 :: zs) + 1))
              (initial_state kf (z0 :: zs))) as [st1 ->].
  - intros Hq.
    destruct (fitted_first_ma _ _ _ _ _ _ _ _ Hfit Hq Hout) as [Hj0 _].
    apply (list_elem_of_lookup_2 _ (Z.to_nat p)).
    unfold ma_bool_mask. rewrite list_lookup_fmap, Hj0.
    cbv [fmap option_fmap option_map].
    by destruct (ma_name_has_ma 1) as [_ ->].
  - done.
  - intros i Hi%range_elem. lia.
  - apply initial_state_view.
  - done.
  - simpl. discriminate.
Qed.

(** In a run on what the construction returns for fitted names, the
    residual computed at any step is [0 - x[0]], so every MA regressor the
    filter injects is the negated first coordinate of the mean. *)
Theorem constructed_residual_is_negated_mean (p q d : Z) (df : frame R)
    arima_params (endog exog : list string) out (k : nat) kf0 st kf
    (res : R) :
  fitted_names p q exog arima_params.*1 → frame_wf df → (q > 0)%Z →
  set_up_kalman_filter p q d df arima_params endog exog = Ok out →
  for_each (loop_body q (su_state_vars out)) (range 0 (Z.of_nat k))
    (initial_state kf0 (su_zs out)) = Ok st →
  ma_residual (Z.of_nat k) (su_state_vars out) kf (tensor st) = Ok res →
  ∃ b, getitem0 (x kf) = Ok b ∧ res = sub zero b.
Proof.
  intros Hfit Hwf Hq Hout Hloop Hres.
  destruct (returned_zs_rows _ _ _ _ _ _ _ _ Hwf Hout) as (_ & _ & Hzero).
  destruct (fitted_first_ma _ _ _ _ _ _ _ _ Hfit Hq Hout) as [Hj0 Hfirst].
  destruct (residual_from_initial q (su_state_vars out) k (Z.to_nat p) _ st
              kf res Hj0 Hfirst Hloop Hres)
    as (row & a & b & Hrow & Ha & Hb & ->).
  exists b. split; [done|]. simpl in Hrow.
  assert (row !! Z.to_nat p = Some zero) as Hz.
  { apply Hzero.
    - by eapply list_elem_of_lookup_2.
    - unfold ma_bool_mask. rewrite list_lookup_fmap, Hj0.
      cbv [fmap option_fmap option_map].
      by destruct (ma_name_has_ma 1) as [_ ->].
    - by eapply lookup_lt_Some. }
  congruence.
Qed.

End PipelineFacts.

(** ** Concrete runs for the further properties *)

Lemma Z_unit_laws : unit_laws (R := Z).
Proof. repeat split; intros a; simpl; lia. Defined.

Lemma conforming_run_raises_no_index_error_witness :
  Forall (λ row, length row = length demo_vars) demo_zs ∧
  ((1 > 0)%Z → true ∈ ma_bool_mask demo_vars) ∧
  (∀ kf' : Z, @x Z Z scalar_filter kf' ≠ []) ∧
  ∀ ie, kalman_filter 1 1 0 0%Z demo_zs demo_vars ≠ Raise (IndexError ie).
Proof.
  assert (Forall (λ row, length row = length demo_vars) demo_zs) as Hrows
    by compute_done.
  assert ((1 > 0)%Z → true ∈ ma_bool_mask demo_vars) as Hma
    by (intros _; compute_done).
  assert (∀ kf' : Z, @x Z Z scalar_filter kf' ≠ []) as Hx by done.
  repeat (split; [assumption|]).
  exact (conforming_run_raises_no_index_error 1 1 0 0%Z [1; 0]%Z
           [[2; 0]; [3; 0]; [4; 0]]%Z demo_vars Hrows Hma Hx).
Defined.

Lemma run_writes_only_ma_slots_witness :
  ∃ st,
    kalman_filter 1 1 0 demo_kf demo_zs demo_vars = Ok st ∧
    length (tensor st) = length demo_zs ∧
    tensor st !! 0 = demo_zs !! 0 ∧ tensor st !! 1 = demo_zs !! 1 ∧
    ∀ (r : nat) row, demo_zs !! r = Some row →
      ∃ row', tensor st !! r = Some row' ∧ length row' = length row ∧
        ∀ j : nat,
          (∀ k, (1 ≤ k ≤ 1)%Z → demo_vars !! j ≠ Some (ma_name k)) →
          row' !! j = row !! j.
Proof.
  destruct (kalman_filter 1 1 0 demo_kf demo_zs demo_vars)
    as [st|e] eqn:Hrun; [|vm_compute in Hrun; discriminate].
  exists st. split; [reflexivity|].
  exact (run_writes_only_ma_slots 1 1 0 demo_kf demo_zs demo_vars st Hrun).
Defined.


Lemma outputs_follow_plain_recursion_witness :
  ∃ st,
    kalman_filter 1 1 0 demo_kf demo_zs demo_vars = Ok st ∧
    ∃ observed,
      Forall2 (λ r obs, tensor st !! r = Some obs) (updates st) observed ∧
      X_out st = (λ s, x s.2) <$> filter_run demo_kf observed ∧
      P_out st = (λ s, P s.2) <$> filter_run demo_kf observed ∧
      LL_out st = (λ s, log_likelihood s.2) <$> filter_run demo_kf observed ∧
      X_pred st
      = ((λ s, x s.1) <$> filter_run demo_kf observed) ++ [x (kfilter st)] ∧
      P_pred st
      = ((λ s, P s.1) <$> filter_run demo_kf observed) ++ [P (kfilter st)] ∧
      kfilter st
      = predict (fold_left (λ kf obs, update (predict kf) obs) observed
                   demo_kf).
Proof.
  destruct (kalman_filter 1 1 0 demo_kf demo_zs demo_vars)
    as [st|e] eqn:Hrun; [|vm_compute in Hrun; discriminate].
  exists st. split; [reflexivity|].
  exact (outputs_follow_plain_recursion 1 1 0 demo_kf demo_zs demo_vars st
           Hrun).
Defined.

Lemma demo_zs_ma_slots_zero (row : list Z) (j : nat) :
  row ∈ demo_zs → ma_bool_mask demo_vars !! j = Some true →
  j < length row → row !! j = Some zero.
Proof.
  intros Hin Hj _. destruct j as [|[|j]]; [done| |done].
  unfold demo_zs in Hin.
  repeat (apply elem_of_cons in Hin as [->|Hin]; [reflexivity|]).
  by apply elem_of_nil in Hin.
Defined.

Lemma residual_is_negated_mean_witness :
  demo_vars !! 1 = Some (ma_name 1) ∧
  (∀ j, j < 1 → ma_bool_mask demo_vars !! j = Some false) ∧
  ∃ st res,
    for_each (loop_body 1 demo_vars) (range 0 (Z.of_nat 1))
      (initial_state demo_kf demo_zs) = Ok st ∧
    ma_residual (Z.of_nat 1) demo_vars [7; 0]%Z (tensor st) = Ok res ∧
    ∃ b, getitem0 (x [7; 0]%Z) = Ok b ∧ res = sub zero b.
Proof.
  assert (demo_vars !! 1 = Some (ma_name 1)) as Hj0 by reflexivity.
  assert (∀ j, j < 1 → ma_bool_mask demo_vars !! j = Some false) as Hfirst.
  { intros j Hj. destruct j; [reflexivity | lia]. }
  split; [exact Hj0|]. split; [exact Hfirst|].
  eexists _, _. split; [vm_compute; reflexivity|].
  split; [vm_compute; reflexivity|].
  eapply (residual_is_negated_mean 1 demo_vars 1 1 demo_zs demo_kf);
    [exact Hj0 | exact Hfirst | exact demo_zs_ma_slots_zero
    | vm_compute; reflexivity | vm_compute; reflexivity].
Defined.

Lemma returned_state_vars_are_distinct_witness :
  NoDup demo_params.*1 ∧
  ∃ out,
    set_up_kalman_filter 1 1 1 demo_df demo_params ["y"] ["x1"] = Ok out ∧
    NoDup (su_state_vars out) ∧
    ∀ name, name ∈ demo_params.*1 →
      ¬ (contains "ar." name ∧ contains "ma." name) ∧
      ¬ (contains "ar." name ∧ name ∈ ["x1"]) ∧
      ¬ (contains "ma." name ∧ name ∈ ["x1"]).
Proof.
  assert (NoDup demo_params.*1) as Hnd by compute_done.
  split; [exact Hnd|].
  destruct (set_up_kalman_filter 1 1 1 demo_df demo_params ["y"] ["x1"])
    as [out|e] eqn:Hout; [|vm_compute in Hout; discriminate].
  exists out. split; [reflexivity|].
  exact (returned_state_vars_are_distinct 1 1 1 demo_df demo_params
           ["y"] ["x1"] out Hnd Hout).
Defined.

Lemma group_stages_raise_value_error_only_witness :
  Z.of_nat (length (ar_params arma22x_params.*1)) = 2%Z ∧
  Z.of_nat (length (ma_parmas arma22x_params.*1)) = 2%Z ∧
  Z.of_nat (length (exo_params ["x1"] arma22x_params.*1)) = 1%Z ∧
  (∃ reordered,
     dict_comprehension arma22x_params
       (ar_params arma22x_params.*1 ++ ma_parmas arma22x_params.*1
        ++ exo_params ["x1"] arma22x_params.*1) = Ok reordered) ∧
  (∀ coefficients e,
     transition_matrix 2 2 1 coefficients
       (ar_params arma22x_params.*1 ++ ma_parmas arma22x_params.*1
        ++ exo_params ["x1"] arma22x_params.*1)
       (exo_params ["x1"] arma22x_params.*1) = Raise e → e = ValueError) ∧
  (∀ e, observation_tensor 2 (2 + 2 + 1) arma22x_df
          (ma_bool_mask
             (ar_params arma22x_params.*1 ++ ma_parmas arma22x_params.*1
              ++ exo_params ["x1"] arma22x_params.*1))
        = Raise e → e = ValueError).
Proof.
  assert (Z.of_nat (length (ar_params arma22x_params.*1)) = 2%Z) as Hp
    by reflexivity.
  assert (Z.of_nat (length (ma_parmas arma22x_params.*1)) = 2%Z) as Hq
    by reflexivity.
  assert (Z.of_nat (length (exo_params ["x1"] arma22x_params.*1)) = 1%Z)
    as Hd by reflexivity.
  repeat (split; [assumption|]).
  exact (group_stages_raise_value_error_only 2 2 1 arma22x_df arma22x_params
           ["x1"] Hp Hq Hd).
Defined.

Lemma group_stages_return_on_fitted_names_witness :
  fitted_names 1 1 ["x1"] demo_params.*1 ∧ (0 ≤ 1)%Z ∧ (0 ≤ 1)%Z ∧
  Z.of_nat (length (exo_params ["x1"] demo_params.*1)) = 1%Z ∧
  Z.of_nat (columns demo_df4) = (1 + 1 + 1)%Z ∧
  Z.of_nat (length (ar_params demo_params.*1)) = 1%Z ∧
  Z.of_nat (length (ma_parmas demo_params.*1)) = 1%Z ∧
  ∃ reordered T zs,
    dict_comprehension demo_params
      (ar_params demo_params.*1 ++ ma_parmas demo_params.*1
       ++ exo_params ["x1"] demo_params.*1) = Ok reordered ∧
    transition_matrix 1 1 1 (reordered.*2)
      (ar_params demo_params.*1 ++ ma_parmas demo_params.*1
       ++ exo_params ["x1"] demo_params.*1)
      (exo_params ["x1"] demo_params.*1) = Ok T ∧
    observation_tensor 1 (1 + 1 + 1) demo_df4
      (ma_bool_mask
         (ar_params demo_params.*1 ++ ma_parmas demo_params.*1
          ++ exo_params ["x1"] demo_params.*1)) = Ok zs.
Proof.
  assert (Z.of_nat (length (exo_params ["x1"] demo_params.*1)) = 1%Z)
    as Hd by reflexivity.
  assert (Z.of_nat (columns demo_df4) = (1 + 1 + 1)%Z) as Hdf by reflexivity.
  split; [exact demo_params_fitted|].
  split; [lia|]. split; [lia|]. split; [exact Hd|]. split; [exact Hdf|].
  exact (group_stages_return_on_fitted_names 1 1 1 demo_df4 demo_params
           ["x1"] demo_params_fitted ltac:(lia) ltac:(lia) Hd Hdf).
Defined.

Lemma transition_matrix_shape_witness :
  NoDup demo_params.*1 ∧
  ∃ out,
    set_up_kalman_filter 1 1 1 demo_df demo_params ["y"] ["x1"] = Ok out ∧
    Z.of_nat (length (su_T out)) = (1 + Z.max (1 - 1) 0 + 1 + 1)%Z ∧
    Forall (λ row, length row = length (su_state_vars out)) (su_T out) ∧
    ∃ coefficients rest,
      su_T out = coefficients :: rest ∧
      Forall2 (λ k v, dict_get demo_params k = Ok v)
              (su_state_vars out) coefficients ∧
      Forall (λ row,
                (∃ c, c < length (su_state_vars out)
                      ∧ row = onehot (length (su_state_vars out)) c)
                ∨ row = replicate (length (su_state_vars out)) zero) rest.
Proof.
  assert (NoDup demo_params.*1) as Hnd by compute_done.
  split; [exact Hnd|].
  destruct (set_up_kalman_filter 1 1 1 demo_df demo_params ["y"] ["x1"])
    as [out|e] eqn:Hout; [|vm_compute in Hout; discriminate].
  exists out. split; [reflexivity|].
  exact (transition_matrix_shape 1 1 1 demo_df demo_params ["y"] ["x1"] out
           Hnd Hout).
Defined.

Lemma Z_matrix_is_identity_witness :
  unit_laws (R := Z) ∧ length [3; 4]%Z = Z.to_nat 2 ∧
  length (Z_matrix (R := Z) 2) = length [3; 4]%Z ∧
  matvec (Z_matrix 2) [3; 4]%Z = [3; 4]%Z.
Proof.
  split; [exact Z_unit_laws|]. split; [reflexivity|].
  exact (Z_matrix_is_identity 2 [3; 4]%Z Z_unit_laws eq_refl).
Defined.

Lemma fitted_dictionary_round_trip_witness :
  NoDup (param_names demo_fit) ∧
  length (param_names demo_fit) = length (params demo_fit) ∧
  (get_ARMA_test demo_fit).2
  = zip (param_names demo_fit) (params demo_fit) ∧
  (get_ARMA_test demo_fit).2.*1 = param_names demo_fit ∧
  (get_ARMA_test demo_fit).2.*2 = params demo_fit ∧
  ∀ (i : nat) name v,
    param_names demo_fit !! i = Some name → params demo_fit !! i = Some v →
    dict_get (get_ARMA_test demo_fit).2 name = Ok v.
Proof.
  assert (NoDup (param_names demo_fit)) as Hnd by compute_done.
  split; [exact Hnd|]. split; [reflexivity|].
  exact (fitted_dictionary_round_trip demo_fit Hnd eq_refl).
Defined.

Lemma demo_df4_wf : frame_wf demo_df4.
Proof. repeat constructor. Defined.

Lemma constructed_run_raises_no_index_error_witness :
  fitted_names 1 1 ["x1"] demo_params.*1 ∧ frame_wf demo_df4 ∧
  values demo_df4 ≠ [] ∧ (∀ kf' : Z, @x Z Z scalar_filter kf' ≠ []) ∧
  ∃ out,
    set_up_kalman_filter 1 1 1 demo_df4 demo_params ["y"] ["x1"] = Ok out ∧
    ∀ ie, kalman_filter 1 1 1 0%Z (su_zs out) (su_state_vars out)
          ≠ Raise (IndexError ie).
Proof.
  assert (values demo_df4 ≠ []) as Hrows by done.
  assert (∀ kf' : Z, @x Z Z scalar_filter kf' ≠ []) as Hx by done.
  split; [exact demo_params_fitted|]. split; [exact demo_df4_wf|].
  split; [exact Hrows|]. split; [exact Hx|].
  destruct (set_up_kalman_filter 1 1 1 demo_df4 demo_params ["y"] ["x1"])
    as [out|e] eqn:Hout; [|vm_compute in Hout; discriminate].
  exists out. split; [reflexivity|].
  exact (constructed_run_raises_no_index_error 1 1 1 demo_df4 demo_params
           ["y"] ["x1"] out 0%Z demo_params_fitted demo_df4_wf Hrows Hx
           Hout).
Defined.

Lemma constructed_residual_is_negated_mean_witness :
  fitted_names 1 1 ["x1"] demo_params.*1 ∧ frame_wf demo_df4 ∧ (1 > 0)%Z ∧
  ∃ out st res,
    set_up_kalman_filter 1 1 1 demo_df4 demo_params ["y"] ["x1"] = Ok out ∧
    for_each (loop_body 1 (su_state_vars out)) (range 0 (Z.of_nat 1))
      (initial_state 0%Z (su_zs out)) = Ok st ∧
    ma_residual (Z.of_nat 1) (su_state_vars out) 5%Z (tensor st) = Ok res ∧
    ∃ b, getitem0 (x 5%Z) = Ok b ∧ res = sub zero b.
Proof.
  split; [exact demo_params_fitted|]. split; [exact demo_df4_wf|].
  split; [lia|].
  eexists _, _, _. split; [vm_compute; reflexivity|].
  split; [vm_compute; reflexivity|]. split; [vm_compute; reflexivity|].
  eapply (constructed_residual_is_negated_mean 1 1 1 demo_df4 demo_params
            ["y"] ["x1"] _ 1 0%Z);
    [exact demo_params_fitted | exact demo_df4_wf | lia
    | vm_compute; reflexivity | vm_compute; reflexivity
    | vm_compute; reflexivity].
Defined.
